(** * filestore: a versioning local file store

    A shallow embedding of the Go package [filestore] (filestore.go,
    filehelpers.go and the date helpers) together with the properties
    stated about it.

    Conventions of the embedding.

    - A Go [string] is a [string] (a sequence of bytes); file contents
      are [list byte].
    - A Go function returning [(T, error)] returns a pair whose second
      component is an [option error] ([None] is Go's [nil] error).
    - Code that touches the disk or the SQLite database is written in
      state-passing style over a [World]: the regular files, the
      directories and the three tables of the catalog.
    - The SQL statements are embedded by their relational reading over
      tables kept as lists of rows in rowid (scan) order.
    - Functions of libraries outside the repository (Blake2b, Snappy,
      [time.Parse], Metaphone3, [path/filepath.Dir], FTS5 [MATCH] ...)
      are variables of the section; the path functions follow the Unix
      build of [path/filepath], where the separator is the slash. *)

From Stdlib Require Import ZArith List Bool Lia.
From Stdlib Require Import Strings.Ascii Strings.String Strings.Byte.
From Stdlib Require Import Sorting.Sorted Sorting.Permutation.
From stdpp Require Import base option list gmap strings sorting.

Local Open Scope string_scope.
Local Open Scope list_scope.

(** ** Bytes, strings and characters *)

Abbreviation bytes := (list byte).

Definition chars (s : string) : list ascii := list_ascii_of_string s.
Definition text (l : list ascii) : string := string_of_list_ascii l.

(** The double quote character (code 34). *)
Definition dquote : ascii := "034"%char.

(** [encoding/hex.EncodeToString]: two lower-case digits per byte. *)
Definition hextable : list ascii := chars "0123456789abcdef".

Definition hexdigit (n : N) : ascii := nth (N.to_nat n) hextable "0"%char.

Fixpoint hex_EncodeToString (src : bytes) : string :=
  match src with
  | [] => ""
  | b :: rest =>
      let v := Byte.to_N b in
      String (hexdigit (N.shiftr v 4))
        (String (hexdigit (N.land v 15)) (hex_EncodeToString rest))
  end.

(** ** Errors *)

Inductive errno := ENOENT | EISDIR | EIO.

Inductive error : Type :=
  | ErrDirectoryIsFile
  | ErrNotOpen
  | ErrInvalidDate
  | Errorf (msg : string) (cause : error)
      (* fmt.Errorf(msg + ": %w", cause) *)
  | PathError (op path : string) (e : errno)
      (* *os.PathError, the errors of os.Open, os.Create, read and write *)
  | snappy_ErrCorrupt
  | sql_ErrNoRows
  | sql_ErrClosed
      (* "sql: database is closed" / "sql: statement is closed" *)
  | sqlite_Error (msg : string)
  | runtime_nil_dereference.

(** The innermost error of a chain of [%w] wrappings. *)
Fixpoint root_cause (e : error) : error :=
  match e with
  | Errorf _ cause => root_cause cause
  | _ => e
  end.

(** An I/O error is one whose root cause was raised by the operating
    system while opening, creating, reading or writing a file, or by
    the Snappy stream reader. *)
Definition is_io_error (e : error) : bool :=
  match root_cause e with
  | PathError _ _ _ | snappy_ErrCorrupt => true
  | _ => false
  end.

(** A Go slice value: [nil], or a (possibly empty) allocated slice. *)
Inductive slice (A : Type) : Type :=
  | nil_slice
  | mk_slice (elems : list A).
Arguments nil_slice {A}.
Arguments mk_slice {A} elems.

(** ** The flags package: [flags.Bits], [flags.Flag0], [flags.Has] *)

Definition Bits := Z.
Definition Flag0 : Bits := 1%Z.
Definition flags_Has (b flag : Bits) : bool := negb (Z.land b flag =? 0)%Z.

Definition Compress : Bits := Flag0.

(** ** Data model *)

(** [time.Time], as seconds since the Unix epoch in UTC. *)
Definition Time := Z.
Definition time_zero : Time := (-62135596800)%Z.

(** Rows of the table [Files (file_id integer primary key, checksum)]. *)
Record FilesRow := mkFilesRow {
  file_id : Z;
  checksum : string
}.

(** Rows of the table [Versions] (and of the full-text table
    [VersionsFts], which is declared over the same columns). *)
Record VersionsRow := mkVersionsRow {
  version_id : Z;
  v_path : string;
  v_info : string;
  v_fuzzy : string;
  v_version : string;
  v_date : string;
  v_file : Z
}.

(** A row of [Versions inner join Files on Versions.file = Files.file_id]
    as the select lists read it: the version columns and the checksum. *)
Record JoinedRow := mkJoinedRow {
  j_version : VersionsRow;
  j_checksum : string
}.

(** The catalog. [VersionsFts] is the FTS5 table declared over the
    content of [Versions]; no statement of the package writes to it,
    its rows are those the index holds. *)
Record Database := mkDatabase {
  tbl_Files : list FilesRow;
  tbl_Versions : list VersionsRow;
  tbl_VersionsFts : list VersionsRow
}.

(** The state outside the process: regular files by path, directories,
    and the catalog kept in [db.sqlite3]. *)
Record World := mkWorld {
  files : gmap string bytes;
  dirs : gset string;
  sqlite : Database
}.

(** The field [db *sql.DB] of a [Filestore]: never assigned, an open
    handle, or a handle on which [Close] has been called. *)
Inductive sql_DB := db_nil | db_open | db_closed.

Record Filestore := mkFilestore {
  Dir : string;
  Options : Bits;
  db : sql_DB
}.

Module FileVersion.
Record t := mk {
  ID : Z;
  Name : string;
  Path : string;
  Local : string;
  Info : string;
  Fuzzy : string;
  Version : string;
  From : Time;
  Checksum : string
}.

(** The composite literal [FileVersion{}]. *)
Definition zero : t := mk 0%Z "" "" "" "" "" "" time_zero "".
End FileVersion.

(** What the operating system does with the byte stream of one
    [io.Copy]: it goes through, or it breaks after some bytes have
    reached the destination. *)
Inductive copy_outcome := copy_completes | copy_breaks (written : nat).

(** The environment of one [Add]: the text [datetime('now')] evaluates
    to, and the fate of the byte copy. *)
Record Env := mkEnv {
  now : string;
  io_copy : copy_outcome
}.

Definition set_files (f : gmap string bytes → gmap string bytes) (w : World) : World :=
  mkWorld (f (files w)) (dirs w) (sqlite w).

Definition set_dirs (f : gset string → gset string) (w : World) : World :=
  mkWorld (files w) (f (dirs w)) (sqlite w).

Definition set_sqlite (f : Database → Database) (w : World) : World :=
  mkWorld (files w) (dirs w) (f (sqlite w)).



Definition empty_catalog : Database := mkDatabase [] [] [].

(** ** path/filepath on Unix *)

Definition Separator : ascii := "/"%char.

Definition IsPathSeparator (c : ascii) : bool := Ascii.eqb c Separator.

Fixpoint replace_char (old new : ascii) (s : string) : string :=
  match s with
  | EmptyString => EmptyString
  | String c rest =>
      String (if Ascii.eqb c old then new else c) (replace_char old new rest)
  end.

Definition filepath_ToSlash (path : string) : string :=
  if Ascii.eqb Separator "/" then path
  else replace_char Separator "/" path.

Definition filepath_FromSlash (path : string) : string :=
  if Ascii.eqb Separator "/" then path
  else replace_char "/" Separator path.

Fixpoint drop_while {A} (p : A → bool) (l : list A) : list A :=
  match l with
  | [] => []
  | x :: rest => if p x then drop_while p rest else l
  end.

Fixpoint take_while {A} (p : A → bool) (l : list A) : list A :=
  match l with
  | [] => []
  | x :: rest => if p x then x :: take_while p rest else []
  end.

(** [filepath.Base]: the last element of the path, after removing
    trailing separators. *)
Definition filepath_Base (path : string) : string :=
  match path with
  | EmptyString => "."
  | _ =>
      let stripped := drop_while IsPathSeparator (rev (chars path)) in
      let last := rev (take_while (λ c, negb (IsPathSeparator c)) stripped) in
      match last with
      | [] => String Separator ""
      | _ => text last
      end
  end.

(** ** The byte replacer behind [safeReplacer]

    [strings.NewReplacer] over single-byte old strings: every byte of
    the input that is an old string is replaced by its new string, the
    other bytes are copied. *)

Definition Replacer := list (ascii * string).

Fixpoint replacement (r : Replacer) (c : ascii) : option string :=
  match r with
  | [] => None
  | (old, new) :: rest => if Ascii.eqb c old then Some new else replacement rest c
  end.

Fixpoint Replace (r : Replacer) (s : string) : string :=
  match s with
  | EmptyString => EmptyString
  | String c rest =>
      match replacement r c with
      | Some new => new +:+ Replace r rest
      | None => String c (Replace r rest)
      end
  end.

Definition safeReplacer : Replacer :=
  [ ("'"%char, ""); ("%"%char, ""); (";"%char, ""); (dquote, ""); ("\"%char, "") ].

(** [buildTerm]: the [LIKE] disjunction for one word on one column, as
    SQL text. *)
Definition buildTerm (column word : string) : string :=
  let word := Replace safeReplacer word in
  column +:+ " like '% " +:+ word +:+ "' or " +:+
  column +:+ " like '" +:+ word +:+ " %' or " +:+
  column +:+ " like '% " +:+ word +:+ " %' or " +:+
  column +:+ " like '" +:+ word +:+ "'".

(** The four patterns inside the quotes of [buildTerm]. *)
Definition like_patterns (word : string) : list string :=
  let word := Replace safeReplacer word in
  [ "% " +:+ word; word +:+ " %"; "% " +:+ word +:+ " %"; word ].

(** One [LIKE] test as SQL text. *)
Definition render_like (column pattern : string) : string :=
  column +:+ " like '" +:+ pattern +:+ "'".

(** The characters the sanitizer is there to remove: both quotes, the
    percent sign, the semicolon and the backslash. *)
Definition unsafe_char (c : ascii) : bool :=
  existsb (Ascii.eqb c) [ "'"%char; "%"%char; ";"%char; dquote; "\"%char ].

(** The [where] text that [SimpleSearch] accumulates in [term]. *)
Fixpoint simple_term (first : bool) (words : list string) : string :=
  match words with
  | [] => ""
  | word :: rest =>
      (if first then "" else " or ") +:+
      buildTerm "info" word +:+ " or " +:+ buildTerm "version" word +:+
      simple_term false rest
  end.

(** [FTS5Escape] *)
Definition FTS5Escape (term : string) : string :=
  String dquote (Replace [(dquote, String dquote (String dquote ""))] term)
  +:+ String dquote "".

(** ** The SQL fragments used by the statements *)

(** [limit ?]: a negative bound means no bound. *)
Definition sql_limit {A} (limit : Z) (rows : list A) : list A :=
  if (limit <? 0)%Z then rows else take (Z.to_nat limit) rows.

(** [order by]: rows are taken in scan order and sorted on the key; a
    row is placed behind the rows that must come before it and in front
    of all others, so rows with equal keys stay in scan order (SQL
    leaves their order open; SQLite's sorter keeps it). *)
Fixpoint sql_insert {A} (before : A → A → bool) (x : A) (sorted : list A) : list A :=
  match sorted with
  | [] => [x]
  | y :: rest =>
      if before y x then y :: sql_insert before x rest else x :: sorted
  end.

Fixpoint order_by {A} (before : A → A → bool) (rows : list A) : list A :=
  match rows with
  | [] => []
  | r :: rest => sql_insert before r (order_by before rest)
  end.

Definition j_date (r : JoinedRow) : string := v_date (j_version r).

(** [order by date desc] and [order by date] on text values. *)
Definition date_desc (a b : JoinedRow) : bool := String.ltb (j_date b) (j_date a).
Definition date_asc (a b : JoinedRow) : bool := String.ltb (j_date a) (j_date b).

(** Newest first: every row is at least as recent, by the stored text
    of its date, as all rows behind it. *)
Definition newest_first : list JoinedRow → Prop :=
  StronglySorted (λ a b, String.le (j_date b) (j_date a)).

(** Oldest first. *)
Definition oldest_first : list JoinedRow → Prop :=
  StronglySorted (λ a b, String.le (j_date a) (j_date b)).

(** [T inner join Files on T.file = Files.file_id], scanning [T]. *)
Definition inner_join (vs : list VersionsRow) (fs : list FilesRow) : list JoinedRow :=
  flat_map
    (λ v, map (λ f, mkJoinedRow v (checksum f))
              (List.filter (λ f, (v_file v =? file_id f)%Z) fs))
    vs.

(** The rowid SQLite gives to a row inserted without one. *)
Definition next_rowid (ids : list Z) : Z :=
  match ids with
  | [] => 1%Z
  | i :: rest => (1 + foldr Z.max i rest)%Z
  end.

(** *** The [LIKE] operator

    [%] matches any run of bytes, [_] one UTF-8 character, any other
    byte matches itself, ASCII letters regardless of case. *)

Definition ascii_lower (c : ascii) : ascii :=
  let n := nat_of_ascii c in
  if (65 <=? n)%nat && (n <=? 90)%nat then ascii_of_nat (n + 32) else c.

Definition like_eqb (c d : ascii) : bool :=
  Ascii.eqb (ascii_lower c) (ascii_lower d).

Definition is_continuation (c : ascii) : bool :=
  let n := nat_of_ascii c in (128 <=? n)%nat && (n <? 192)%nat.

Definition utf8_skip (s : list ascii) : option (list ascii) :=
  match s with
  | [] => None
  | c :: rest =>
      Some (if (192 <=? nat_of_ascii c)%nat then drop_while is_continuation rest
            else rest)
  end.

Fixpoint like_chars (pattern : list ascii) : list ascii → bool :=
  match pattern with
  | [] => λ s, match s with [] => true | _ => false end
  | c :: pattern' =>
      if Ascii.eqb c "%" then
        fix any (s : list ascii) : bool :=
          like_chars pattern' s ||
          match s with
          | [] => false
          | _ :: s' => any s'
          end
      else if Ascii.eqb c "_" then
        λ s, match utf8_skip s with
             | Some s' => like_chars pattern' s'
             | None => false
             end
      else
        λ s, match s with
             | d :: s' => like_eqb c d && like_chars pattern' s'
             | [] => false
             end
  end.

(** [value like 'pattern'] *)
Definition sql_like (value pattern : string) : bool :=
  like_chars (chars pattern) (chars value).

(** *** What [LIKE] with the patterns of [buildTerm] tests *)

(** Two texts agree but for the case of ASCII letters. *)
Definition same_text (a b : list ascii) : Prop :=
  Forall2 (λ c d, like_eqb c d = true) a b.




(** The [where] clause of [SimpleSearch], read from [simple_term]. *)
Definition word_matches (word : string) (r : JoinedRow) : bool :=
  existsb (sql_like (v_info (j_version r))) (like_patterns word) ||
  existsb (sql_like (v_version (j_version r))) (like_patterns word).

Definition simple_where (words : list string) (r : JoinedRow) : bool :=
  existsb (λ word, word_matches word r) words.

(** [strings.Join] *)
Fixpoint strings_Join (elems : list string) (sep : string) : string :=
  match elems with
  | [] => ""
  | [e] => e
  | e :: rest => e +:+ sep +:+ strings_Join rest sep
  end.

(** ** The operating system *)

Inductive FileMode := mode_regular | mode_dir.

(** [os.Stat]: [None] when nothing exists at the path. *)
Definition os_Stat (w : World) (path : string) : option FileMode :=
  match files w !! path with
  | Some _ => Some mode_regular
  | None => if decide (path ∈ dirs w) then Some mode_dir else None
  end.

(** [os.Create], taken to succeed: the file exists and is empty
    afterwards. *)
Definition os_Create (path : string) (w : World) : World :=
  set_files (<[path := []]>) w.

(** [os.Remove] of a file, taken to succeed when the file exists. *)
Definition os_Remove (path : string) (w : World) : World :=
  set_files (delete path) w.

(** Writing a stream into an open file, under the given outcome. *)
Definition write_stream (o : copy_outcome) (dst : string) (data : bytes)
    (w : World) : option error * World :=
  match o with
  | copy_completes => (None, set_files (<[dst := data]>) w)
  | copy_breaks n =>
      (Some (PathError "write" dst EIO), set_files (<[dst := take n data]>) w)
  end.

(** [ensureDirectory] *)
Definition ensureDirectory (path : string) (perm : Z) (w : World)
    : option error * World :=
  match os_Stat w path with
  | None => (None, set_dirs (λ d, {[path]} ∪ d) w)
  | Some mode_regular => (Some ErrDirectoryIsFile, w)
  | Some mode_dir => (None, w)
  end.

Definition is_nil (d : sql_DB) : bool :=
  match d with db_nil => true | _ => false end.

(** The error of running a statement on the handle, if any. *)
Definition stmt_error (fs : Filestore) : option error :=
  match db fs with
  | db_open => None
  | _ => Some sql_ErrClosed
  end.

(** [fs.dbError] *)
Definition dbError (err : error) : error := Errorf "filestore DB error" err.

(** ** The prepared statements *)

(** [select ... from T inner join Files on T.file=Files.file_id
     where ... order by ... limit ?] *)
Definition select_joined (from : list VersionsRow) (d : Database)
    (where_ : JoinedRow → bool) (before : JoinedRow → JoinedRow → bool)
    (limit : Z) : list JoinedRow :=
  sql_limit limit
    (order_by before (List.filter where_ (inner_join from (tbl_Files d)))).

Definition path_is (path : string) (r : JoinedRow) : bool :=
  String.eqb (v_path (j_version r)) path.

(** [queryIDStmt]: select file_id from Files where checksum=? *)
Definition queryIDStmt (d : Database) (check : string) : list Z :=
  map file_id (List.filter (λ f, String.eqb (checksum f) check) (tbl_Files d)).

(** [insertFileStmt]: insert into Files(checksum) Values(?), under the
    unique index on the checksum; yields the new rowid. *)
Definition insertFileStmt (check : string) (d : Database)
    : Z * option error * Database :=
  if existsb (λ f, String.eqb (checksum f) check) (tbl_Files d) then
    (0%Z, Some (sqlite_Error "UNIQUE constraint failed: Files.checksum"), d)
  else
    let id := next_rowid (map file_id (tbl_Files d)) in
    (id, None,
     mkDatabase (tbl_Files d ++ [mkFilesRow id check]) (tbl_Versions d)
                (tbl_VersionsFts d)).

(** [insertVersionStmt]: insert into Versions(path, info, fuzzy,
    version, date, file) values(?, ?, ?, ?, datetime('now'), ?) *)
Definition insertVersionStmt (now_ path info fuzzy version : string) (file : Z)
    (d : Database) : Database :=
  let id := next_rowid (map version_id (tbl_Versions d)) in
  mkDatabase (tbl_Files d)
    (tbl_Versions d ++ [mkVersionsRow id path info fuzzy version now_ file])
    (tbl_VersionsFts d).

(** [hasVersionStmt]: select exists (select 1 from Versions where path=?) *)
Definition hasVersionStmt (d : Database) (path : string) : bool :=
  existsb (λ v, String.eqb (v_path v) path) (tbl_Versions d).

(** [getVersionStmt]: ... where Versions.path=? order by Versions.date
    desc limit 1 *)
Definition getVersionStmt (d : Database) (path : string) : list JoinedRow :=
  select_joined (tbl_Versions d) d (path_is path) date_desc 1.

(** [getVersionsStmt]: ... where Versions.path=? order by Versions.date
    desc limit ? *)
Definition getVersionsStmt (d : Database) (path : string) (limit : Z)
    : list JoinedRow :=
  select_joined (tbl_Versions d) d (path_is path) date_desc limit.

(** [getVersionsAfterStmt]: ... where Versions.path=? and
    Versions.date > ? order by Versions.date desc limit ? *)
Definition getVersionsAfterStmt (d : Database) (path after : string) (limit : Z)
    : list JoinedRow :=
  select_joined (tbl_Versions d) d
    (λ r, path_is path r && String.ltb after (j_date r)) date_desc limit.

(** The statement of [SimpleSearch]: ... where <term> order by date
    limit ? *)
Definition simpleSearchStmt (d : Database) (words : list string) (limit : Z)
    : list JoinedRow :=
  select_joined (tbl_Versions d) d (simple_where words) date_asc limit.

(** The statement of [search]: ... from VersionsFts inner join Files ...
    where <column> match ? or version match ? or date match ? order by
    date limit ?, for a term the full-text engine reads as the
    predicate [m] on column texts. *)
Definition searchStmt (d : Database) (column : VersionsRow → string)
    (m : string → bool) (limit : Z) : list JoinedRow :=
  select_joined (tbl_VersionsFts d) d
    (λ r, m (column (j_version r)) || m (v_version (j_version r))
          || m (v_date (j_version r)))
    date_asc limit.

(** ** Stand-ins for the libraries, to run the package on samples

    The package is stated over the library functions it calls. To
    evaluate it on a sample input these functions need values. The
    stand-ins below agree with the libraries on the inputs the samples
    use (ASCII paths, timestamps of the form YYYY-MM-DD HH:MM:SS,
    single-token search terms), except for the digest and the stream
    codec, of which the samples only need that they are functions of
    the content. *)
Module Sample.

(** A digest: the content itself. *)
Definition Sum512 (data : bytes) : bytes := data.

(** A stream codec: one marker byte in front of the content. *)
Definition encode (data : bytes) : bytes := xff%byte :: data.

Definition decode (stream : bytes) : bytes * bool :=
  match stream with
  | [] => ([], true)
  | b :: rest => if Byte.eqb b xff then (rest, true) else ([], false)
  end.

Definition digit (c : ascii) : option Z :=
  let n := nat_of_ascii c in
  if (48 <=? n)%nat && (n <=? 57)%nat then Some (Z.of_nat (n - 48)) else None.

Fixpoint number (l : list ascii) (acc : Z) : option Z :=
  match l with
  | [] => Some acc
  | c :: rest =>
      match digit c with
      | Some d => number rest (10 * acc + d)%Z
      | None => None
      end
  end.

Definition leap (y : Z) : bool :=
  ((y mod 4 =? 0) && (negb (y mod 100 =? 0) || (y mod 400 =? 0)))%Z.

Definition daysIn (m y : Z) : Z :=
  if (m =? 2)%Z then (if leap y then 29 else 28)%Z
  else if ((m =? 4) || (m =? 6) || (m =? 9) || (m =? 11))%Z then 30%Z
  else 31%Z.

(** Days between 1970-01-01 and a date of the Gregorian calendar. *)
Definition days_from_civil (y m d : Z) : Z :=
  let y := (if m <=? 2 then y - 1 else y)%Z in
  let era := (y / 400)%Z in
  let yoe := (y - era * 400)%Z in
  let doy := ((153 * (if 2 <? m then m - 3 else m + 9) + 2) / 5 + d - 1)%Z in
  let doe := (yoe * 365 + yoe / 4 - yoe / 100 + doy)%Z in
  (era * 146097 + doe - 719468)%Z.

(** [time.Parse] on the layout of [ParseDBDate], for values written
    with all their digits. *)
Definition Parse (layout value : string) : option Time :=
  match chars value with
  | [y1; y2; y3; y4; c1; m1; m2; c2; d1; d2; c3; h1; h2; c4; i1; i2; c5; s1; s2] =>
      if Ascii.eqb c1 "-" && Ascii.eqb c2 "-" && Ascii.eqb c3 " "
         && Ascii.eqb c4 ":" && Ascii.eqb c5 ":" then
        match number [y1; y2; y3; y4] 0, number [m1; m2] 0, number [d1; d2] 0,
              number [h1; h2] 0, number [i1; i2] 0, number [s1; s2] 0 with
        | Some y, Some m, Some d, Some h, Some i, Some s =>
            if ((1 <=? m) && (m <=? 12) && (1 <=? d) && (d <=? daysIn m y)
                && (h <? 24) && (i <? 60) && (s <? 60))%Z
            then Some (days_from_civil y m d * 86400 + h * 3600 + i * 60 + s)%Z
            else None
        | _, _, _, _, _, _ => None
        end
      else None
  | _ => None
  end.

Definition digit_char (n : Z) : ascii := ascii_of_nat (48 + Z.to_nat (n mod 10)).

Definition two_digits (n : Z) : string :=
  String (digit_char (n / 10)) (String (digit_char n) "").

Definition four_digits (n : Z) : string :=
  two_digits (n / 100) +:+ two_digits (n mod 100).

(** [t.Format] on the layout of [ToDBDate]. *)
Definition Format (t : Time) (layout : string) : string :=
  let days := (t / 86400)%Z in
  let secs := (t mod 86400)%Z in
  let z := (days + 719468)%Z in
  let era := (z / 146097)%Z in
  let doe := (z - era * 146097)%Z in
  let yoe := ((doe - doe / 1460 + doe / 36524 - doe / 146096) / 365)%Z in
  let doy := (doe - (365 * yoe + yoe / 4 - yoe / 100))%Z in
  let mp := ((5 * doy + 2) / 153)%Z in
  let d := (doy - (153 * mp + 2) / 5 + 1)%Z in
  let m := (if mp <? 10 then mp + 3 else mp - 9)%Z in
  let y := (yoe + era * 400 + (if m <=? 2 then 1 else 0))%Z in
  four_digits y +:+ "-" +:+ two_digits m +:+ "-" +:+ two_digits d +:+ " " +:+
  two_digits (secs / 3600) +:+ ":" +:+ two_digits (secs / 60 mod 60) +:+ ":" +:+
  two_digits (secs mod 60).

Definition is_space (c : ascii) : bool :=
  let n := nat_of_ascii c in ((9 <=? n) && (n <=? 13) || (n =? 32))%nat.

(** [strings.Fields] for ASCII white space. *)
Fixpoint fields_from (word : list ascii) (l : list ascii) : list string :=
  match l with
  | [] => match word with [] => [] | _ => [text (rev word)] end
  | c :: rest =>
      if is_space c then
        match word with
        | [] => fields_from [] rest
        | _ => text (rev word) :: fields_from [] rest
        end
      else fields_from (c :: word) rest
  end.

Definition Fields (s : string) : list string := fields_from [] (chars s).

(** A phonetic code: the word itself, and no secondary code. *)
Definition Encode (word : string) : string * string := (word, "").

(** [filepath.Dir] for a path without dot elements or doubled
    separators. *)
Definition Dir (path : string) : string :=
  let parent :=
    rev (drop_while IsPathSeparator
           (drop_while (λ c, negb (IsPathSeparator c)) (rev (chars path)))) in
  match parent with
  | [] => "."
  | _ => text parent
  end.

(** [utf8.DecodeLastRuneInString] for a string ending in an ASCII
    byte. *)
Definition DecodeLastRune (s : string) : Z * Z :=
  match rev (chars s) with
  | [] => (65533, 0)%Z
  | c :: _ =>
      if (nat_of_ascii c <? 128)%nat then (Z.of_nat (nat_of_ascii c), 1%Z)
      else (65533, 1)%Z
  end.

(** The FTS5 reading of a term made of one bare token: a column
    matches when the token is one of its words. *)
Definition fts_match (term : string) : option (string → bool) :=
  match Fields term with
  | [token] => Some (λ column, existsb (String.eqb token) (Fields column))
  | _ => None
  end.

End Sample.

(** ** Sample stores *)
Module Store.
Local Open Scope Z_scope.

Definition hello : bytes := list_byte_of_string "hello".

(** The digest stand-in of [hello], in hexadecimal. *)
Definition hello_sum : string := "68656c6c6f".

(** A store rooted at [store], never opened, without compression. *)
Definition unopened : Filestore := mkFilestore "store" 0 db_nil.

(** The same store, open. *)
Definition opened : Filestore := mkFilestore "store" 0 db_open.

(** Disk and catalog after [a.txt], holding [hello], was added. *)
Definition one_version : World :=
  mkWorld
    {[ "a.txt" := hello; "store/68656c6c6f/a.txt" := hello ]}
    {[ "store"; "store/68656c6c6f"; "out" ]}
    (mkDatabase
       [ mkFilesRow 1 hello_sum ]
       [ mkVersionsRow 1 "a.txt" "greeting" "greeting" "1.0"
           "2021-08-20 10:30:05" 1 ]
       []).

(** The version of [a.txt] as [Get] resolves it. *)
Definition a_txt : FileVersion.t :=
  FileVersion.mk 1 "a.txt" "a.txt" "store/68656c6c6f/a.txt" "greeting"
    "greeting" "1.0" 1629455405 hello_sum.

(** A catalog whose only version row carries a date that is not a
    timestamp. *)
Definition corrupt_row : VersionsRow :=
  mkVersionsRow 1 "a.txt" "greeting" "greeting" "1.0" "yesterday" 1.

Definition corrupt : World :=
  mkWorld ∅ ∅
    (mkDatabase [ mkFilesRow 1 hello_sum ] [ corrupt_row ] [ corrupt_row ]).

(** A store with compression. *)
Definition compressing : Filestore := mkFilestore "store" Compress db_open.

(** Two files of equal content next to a store whose catalog is
    empty. *)
Definition fresh : World :=
  mkWorld {[ "a.txt" := hello; "docs/b.txt" := hello ]}
    {[ "store"; "docs"; "out" ]} empty_catalog.

Definition monday : Env := mkEnv "2021-08-16 09:00:00" copy_completes.
Definition tuesday : Env := mkEnv "2021-08-17 09:00:00" copy_completes.

(** A day on which the disk fails after two bytes. *)
Definition bad_day : Env := mkEnv "2021-08-18 09:00:00" (copy_breaks 2).

(** Two versions of [a.txt] added within the same second. *)
Definition same_second : World :=
  mkWorld ∅ ∅
    (mkDatabase
       [ mkFilesRow 1 hello_sum; mkFilesRow 2 "6279" ]
       [ mkVersionsRow 1 "a.txt" "first" "first" "1.0" "2021-08-20 10:30:05" 1;
         mkVersionsRow 2 "a.txt" "second" "second" "1.1" "2021-08-20 10:30:05" 2 ]
       []).

Definition first_a : FileVersion.t :=
  FileVersion.mk 1 "a.txt" "a.txt" "store/68656c6c6f/a.txt" "first" "first"
    "1.0" 1629455405 hello_sum.

Definition second_a : FileVersion.t :=
  FileVersion.mk 2 "a.txt" "a.txt" "store/6279/a.txt" "second" "second"
    "1.1" 1629455405 "6279".

(** Two reports, a day apart, present in the catalog and in the
    full-text table. *)
Definition reports_rows : list VersionsRow :=
  [ mkVersionsRow 1 "q.txt" "quarterly report" "KRTRL RPRT" "1.0"
      "2021-08-20 10:30:05" 1;
    mkVersionsRow 2 "y.txt" "yearly report" "YRL RPRT" "2.0"
      "2021-08-21 10:30:05" 1 ].

Definition reports : World :=
  mkWorld ∅ ∅ (mkDatabase [ mkFilesRow 1 hello_sum ] reports_rows reports_rows).

Definition quarterly : FileVersion.t :=
  FileVersion.mk 1 "q.txt" "q.txt" "store/68656c6c6f/q.txt" "quarterly report"
    "KRTRL RPRT" "1.0" 1629455405 hello_sum.

Definition yearly : FileVersion.t :=
  FileVersion.mk 2 "y.txt" "y.txt" "store/68656c6c6f/y.txt" "yearly report"
    "YRL RPRT" "2.0" 1629541805 hello_sum.




End Store.

(** ** The orders the properties speak of *)

(** [a] was created after [b]: at a later time or, at the same time,
    with the higher identity. *)
Definition created_after (a b : FileVersion.t) : Prop :=
  (FileVersion.From b < FileVersion.From a)%Z
  ∨ (FileVersion.From b = FileVersion.From a
     ∧ (FileVersion.ID b < FileVersion.ID a)%Z).

(** Strictly descending creation order. *)
Definition descending_creation (vs : list FileVersion.t) : Prop :=
  Sorted created_after vs.

(** Timestamps descending. *)
Definition descending_time (vs : list FileVersion.t) : Prop :=
  Sorted (λ a b, (FileVersion.From b ≤ FileVersion.From a)%Z) vs.


(** ** Further properties of a catalog *)

(** Every version row refers to a row of [Files]. *)
Definition references_resolve (d : Database) : Prop :=
  ∀ v, v ∈ tbl_Versions d → ∃ f, f ∈ tbl_Files d ∧ file_id f = v_file v.

(** The primary keys of both tables identify their rows. *)
Definition unique_keys (d : Database) : Prop :=
  NoDup (map file_id (tbl_Files d)) ∧ NoDup (map version_id (tbl_Versions d)).


(** ** Further sample stores *)
Module Cases.

(** A disk on which a regular file stands where the blob directory of
    the content [Store.hello] is to be made. *)
Definition blocked : World :=
  mkWorld {[ "a.txt" := Store.hello; "store/68656c6c6f" := [] ]}
    {[ "store" ]} empty_catalog.

(** The day after the one version of [Store.one_version]. *)
Definition saturday : Env := mkEnv "2021-08-21 10:30:05" copy_completes.

End Cases.
(** ** The package *)

Section Filestore.

(** *** Libraries outside the repository *)

(** [blake2b.New512] fed with the whole input, then [Sum]. *)
Variable blake2b_Sum512 : bytes → bytes.
(** What a [snappy.Writer] emits for an input, and what a
    [snappy.Reader] yields for a stream, with whether the stream was
    well formed to its end. *)
Variable snappy_encode : bytes → bytes.
Variable snappy_decode : bytes → bytes * bool.
(** [time.Parse layout value] and [t.Format layout]. *)
Variable time_Parse : string → string → option Time.
Variable time_Format : Time → string → string.
(** [metaphone3.Encoder.Encode]: primary and secondary code. *)
Variable metaphone_Encode : string → string * string.
Variable strings_Fields : string → list string.
Variable filepath_Dir : string → string.
(** [utf8.DecodeLastRuneInString]: the rune and its width. *)
Variable utf8_DecodeLastRuneInString : string → Z * Z.
(** The FTS5 reading of a query term: [None] when the engine rejects
    it, otherwise the column texts it matches. *)
Variable fts5_match : string → option (string → bool).

Definition RuneError : Z := 65533%Z.

(** *** dates *)

Definition ParseDBDate (date : string) : option Time :=
  let layout := "2006-01-02 15:04:05" in
  time_Parse layout date.

Definition ToDBDate (date : Time) : string :=
  time_Format date "2006-01-02 15:04:05".

(** The lower-case variants of dates.go, with a zone offset in the
    layout of the parser; nothing in the package calls them. *)
Definition parseDBDate (date : string) : option Time :=
  let layout := "2006-01-02T15:04:05-0700" in
  time_Parse layout date.

Definition toDBDate (date : Time) : string :=
  time_Format date "2006-01-02 15:04:05".

(** *** filehelpers.go *)

Definition asDirectoryPath (path : string) : string :=
  if String.eqb path "" then ""
  else
    let '(r, n) := utf8_DecodeLastRuneInString path in
    if negb (r =? RuneError)%Z && (0 <? n)%Z
       && negb (r =? Z.of_nat (nat_of_ascii Separator))%Z
    then path +:+ String Separator ""
    else path.

(** [copyFile]: the source is opened, the destination created (and
    emptied), then the bytes the source holds at that moment are
    streamed to the destination, through the Snappy writer or reader
    when compression is on; [o] is what the disk does with the
    stream. *)
Definition copyFile (o : copy_outcome) (src dst : string)
    (useCompression restore : bool) (w : World) : option error * World :=
  match os_Stat w src with
  | None => (Some (PathError "open" src ENOENT), w)
  | Some _ =>
      let w := os_Create dst w in
      match files w !! src with
      | None => (Some (PathError "read" src EISDIR), w)
      | Some data =>
          if useCompression then
            if restore then
              let '(plain, ok) := snappy_decode data in
              match write_stream o dst plain w with
              | (Some err, w) => (Some err, w)
              | (None, w) =>
                  if ok then (None, w) else (Some snappy_ErrCorrupt, w)
              end
            else write_stream o dst (snappy_encode data) w
          else write_stream o dst data w
      end
  end.

(** *** filestore.go *)

Definition NewFilestore (root : string) (options : Bits) : Filestore :=
  mkFilestore root options db_nil.

Definition Root (fs : Filestore) : string :=
  if String.eqb (Dir fs) "" then "versions/" else asDirectoryPath (Dir fs).

Definition dbPath (fs : Filestore) : string := Root fs +:+ "db.sqlite3".

(** [Open]: the root directory is ensured, the tables and the index
    are created unless they exist, the statements are prepared. *)
Definition Open (fs : Filestore) (w : World)
    : option error * Filestore * World :=
  match ensureDirectory (Root fs) 448 w with
  | (Some err, w) =>
      (Some (Errorf "filestore could not create root directory" err), fs, w)
  | (None, w) => (None, mkFilestore (Dir fs) (Options fs) db_open, w)
  end.

(** [Close]: the statements and the handle are closed; the field
    [db] keeps pointing to the closed handle. On a store that was
    never opened the nil mutex is dereferenced. *)
Definition Close (fs : Filestore) : option error * Filestore :=
  match db fs with
  | db_nil => (Some runtime_nil_dereference, fs)
  | _ => (None, mkFilestore (Dir fs) (Options fs) db_closed)
  end.

Definition localPath (fs : Filestore) (name checksum_ : string) : string :=
  Root fs +:+ checksum_ +:+ String Separator "" +:+ name.

(** [Checksum]: the hexadecimal Blake2b digest of the file at the
    path. *)
Definition Checksum (fs : Filestore) (path : string) (w : World)
    : string * option error :=
  match files w !! path with
  | Some data => (hex_EncodeToString (blake2b_Sum512 data), None)
  | None =>
      if decide (path ∈ dirs w) then ("", Some (PathError "read" path EISDIR))
      else ("", Some (PathError "open" path ENOENT))
  end.

Definition EncodeMetaphone (text_ : string) : string :=
  let s := strings_Fields text_ in
  let m := map (λ word, fst (metaphone_Encode word)) s in
  strings_Join m " ".

(** [addVersion]: the row of the checksum is looked up; without one
    the file is copied into the store and a [Files] row inserted; in
    both cases a version row is inserted. *)
Definition addVersion (fs : Filestore) (env : Env)
    (path info version check : string) (w : World) : option error * World :=
  let name := filepath_Base path in
  let slashPath := filepath_ToSlash path in
  match stmt_error fs with
  | Some err => (Some (dbError err), w)
  | None =>
      let fileID := hd 0%Z (queryIDStmt (sqlite w) check) in
      let append_version (fileID : Z) (w : World) :=
        (None,
         set_sqlite (insertVersionStmt (now env) slashPath info
                       (EncodeMetaphone info) version fileID) w) in
      if (fileID =? 0)%Z then
        let dst := localPath fs name check in
        match ensureDirectory (filepath_Dir dst) 448 w with
        | (Some err, w) =>
            (Some (Errorf ("filestore unable to create directory " +:+ dst) err), w)
        | (None, w) =>
            let compress := flags_Has (Options fs) Compress in
            let dst := if compress then dst +:+ ".snappy" else dst in
            match copyFile (io_copy env) path dst compress false w with
            | (Some err, w) =>
                let w := os_Remove dst w in
                (Some (Errorf ("filestore failed to copy file " +:+ String dquote name
                               +:+ String dquote " to " +:+ dst) err), w)
            | (None, w) =>
                match insertFileStmt check (sqlite w) with
                | (_, Some err, d) => (Some (dbError err), set_sqlite (λ _, d) w)
                | (fileID, None, d) => append_version fileID (set_sqlite (λ _, d) w)
                end
            end
        end
      else append_version fileID w
  end.

(** The file [addVersion] writes the blob of a digest to. *)
Definition blobFile (fs : Filestore) (name check : string) : string :=
  let dst := localPath fs name check in
  if flags_Has (Options fs) Compress then dst +:+ ".snappy" else dst.

Definition Add (fs : Filestore) (env : Env) (path info version : string)
    (w : World) : option error * World :=
  if is_nil (db fs) then (Some ErrNotOpen, w)
  else
    match Checksum fs path w with
    | (_, Some err) =>
        (Some (Errorf ("filestore checksum failed for " +:+ path) err), w)
    | (check, None) => addVersion fs env path info version check w
    end.

Definition Has (fs : Filestore) (file : string) (w : World) : bool :=
  if is_nil (db fs) then false
  else
    match stmt_error fs with
    | Some _ => false
    | None => hasVersionStmt (sqlite w) (filepath_ToSlash file)
    end.

Definition Get (fs : Filestore) (path : string) (w : World)
    : FileVersion.t * option error :=
  if is_nil (db fs) then (FileVersion.zero, Some ErrNotOpen)
  else
    let slashPath := filepath_ToSlash path in
    match stmt_error fs with
    | Some err => (FileVersion.zero, Some (dbError err))
    | None =>
        match getVersionStmt (sqlite w) slashPath with
        | [] => (FileVersion.zero, Some (dbError sql_ErrNoRows))
        | row :: _ =>
            let r := j_version row in
            let name := filepath_Base path in
            match ParseDBDate (v_date r) with
            | None => (FileVersion.zero, Some ErrInvalidDate)
            | Some from =>
                (FileVersion.mk (version_id r) name (v_path r)
                   (localPath fs name (j_checksum row))
                   (v_info r) (v_fuzzy r) (v_version r) from (j_checksum row),
                 None)
            end
        end
    end.

Definition Restore (fs : Filestore) (o : copy_outcome)
    (version : FileVersion.t) (dst : string) (w : World)
    : option error * World :=
  let useCompression := flags_Has (Options fs) Compress in
  let dst := asDirectoryPath dst in
  let dstFile := dst +:+ FileVersion.Name version in
  let srcFile := localPath fs (FileVersion.Name version) (FileVersion.Checksum version) in
  copyFile o srcFile dstFile useCompression true w.

Definition RestoreAtSource (fs : Filestore) (o : copy_outcome)
    (version : FileVersion.t) (w : World) : option error * World :=
  Restore fs o version (FileVersion.Path version) w.

(** The loop of [getVersions] over the rows of a result set, with the
    slice [versions] built so far. *)
Fixpoint getVersions_rows (fs : Filestore) (rows : list JoinedRow)
    (versions : list FileVersion.t) : slice FileVersion.t * option error :=
  match rows with
  | [] => (mk_slice versions, None)
  | row :: rest =>
      let r := j_version row in
      let path := filepath_FromSlash (v_path r) in
      let name := filepath_Base path in
      match ParseDBDate (v_date r) with
      | None => (nil_slice, Some ErrInvalidDate)
      | Some from =>
          getVersions_rows fs rest
            (versions ++
             [FileVersion.mk (version_id r) name path
                (localPath fs name (j_checksum row))
                (v_info r) (v_fuzzy r) (v_version r) from (j_checksum row)])
      end
  end.

(** The [FileVersion] the loop body builds from one row, when the
    date of the row parses. *)
Definition fileVersion_of (fs : Filestore) (row : JoinedRow)
    : option FileVersion.t :=
  let r := j_version row in
  let path := filepath_FromSlash (v_path r) in
  let name := filepath_Base path in
  match ParseDBDate (v_date r) with
  | None => None
  | Some from =>
      Some (FileVersion.mk (version_id r) name path
              (localPath fs name (j_checksum row))
              (v_info r) (v_fuzzy r) (v_version r) from (j_checksum row))
  end.

(** The versions are the rows of the result set, one for one and in
    order. *)
Definition versions_of (fs : Filestore) (rows : list JoinedRow)
    (vs : list FileVersion.t) : Prop :=
  Forall2 (λ r v, fileVersion_of fs r = Some v) rows vs.

Definition getVersions (fs : Filestore) (rows : list JoinedRow)
    : slice FileVersion.t * option error :=
  getVersions_rows fs rows [].

Definition Versions (fs : Filestore) (path : string) (limit : Z) (w : World)
    : slice FileVersion.t * option error :=
  if is_nil (db fs) then (nil_slice, Some ErrNotOpen)
  else
    match stmt_error fs with
    | Some err => (nil_slice, Some (dbError err))
    | None => getVersions fs (getVersionsStmt (sqlite w) path limit)
    end.

Definition VersionsAfter (fs : Filestore) (path : string) (after : Time)
    (limit : Z) (w : World) : slice FileVersion.t * option error :=
  if is_nil (db fs) then (nil_slice, Some ErrNotOpen)
  else
    match stmt_error fs with
    | Some err => (nil_slice, Some (dbError err))
    | None =>
        getVersions fs
          (getVersionsAfterStmt (sqlite w) path (ToDBDate after) limit)
    end.

Definition SimpleSearch (fs : Filestore) (words : list string) (limit : Z)
    (w : World) : slice FileVersion.t * option error :=
  if is_nil (db fs) then (nil_slice, Some ErrNotOpen)
  else
    let term := simple_term true words in
    match stmt_error fs with
    | Some err => (nil_slice, Some err)
    | None =>
        if String.eqb term "" then
          (nil_slice, Some (sqlite_Error "near order: syntax error"))
        else getVersions fs (simpleSearchStmt (sqlite w) words limit)
    end.

Definition search (fs : Filestore) (term : string) (limit : Z) (fuzzy : bool)
    (w : World) : slice FileVersion.t * option error :=
  if is_nil (db fs) then (nil_slice, Some ErrNotOpen)
  else
    let column := if fuzzy then v_fuzzy else v_info in
    match stmt_error fs with
    | Some err => (nil_slice, Some err)
    | None =>
        match fts5_match term with
        | None => (nil_slice, Some (sqlite_Error "fts5: syntax error"))
        | Some m => getVersions fs (searchStmt (sqlite w) column m limit)
        end
    end.

Definition Search (fs : Filestore) (term : string) (limit : Z) (w : World)
    : slice FileVersion.t * option error :=
  search fs term limit false w.

Definition FuzzySearch (fs : Filestore) (term : string) (limit : Z) (w : World)
    : slice FileVersion.t * option error :=
  search fs term limit true w.

(** One call of [Add] and a sequence of calls. *)
Record AddCall := mkAddCall {
  call_env : Env;
  call_path : string;
  call_info : string;
  call_version : string
}.

Fixpoint add_all (fs : Filestore) (calls : list AddCall) (w : World) : World :=
  match calls with
  | [] => w
  | c :: rest =>
      add_all fs rest
        (snd (Add fs (call_env c) (call_path c) (call_info c) (call_version c) w))
  end.

(** ** Facts about the SQL fragments *)

Lemma sql_limit_length {A} (limit : Z) (rows : list A) :
  (0 ≤ limit)%Z → (Z.of_nat (length (sql_limit limit rows)) ≤ limit)%Z.
Proof.
  intros Hlimit. unfold sql_limit.
  destruct (Z.ltb_spec limit 0) as [Hneg|_]; [lia|].
  rewrite length_take. lia.
Qed.

Lemma sql_limit_prefix {A} (limit : Z) (rows : list A) :
  ∃ rest, rows = sql_limit limit rows ++ rest.
Proof.
  unfold sql_limit. destruct (limit <? 0)%Z.
  - exists []. by rewrite app_nil_r.
  - exists (drop (Z.to_nat limit) rows). by rewrite take_drop.
Qed.

Lemma sql_limit_elem_of {A} (limit : Z) (rows : list A) (x : A) :
  x ∈ sql_limit limit rows → x ∈ rows.
Proof.
  destruct (sql_limit_prefix limit rows) as [rest Hrows].
  intros Hx. rewrite Hrows. apply elem_of_app. by left.
Qed.

Lemma sql_insert_Permutation {A} (before : A → A → bool) x l :
  sql_insert before x l ≡ₚ x :: l.
Proof.
  induction l as [|y l IH]; simpl; [done|].
  destruct (before y x); [|done].
  rewrite IH. apply Permutation_swap.
Qed.

Lemma order_by_Permutation {A} (before : A → A → bool) rows :
  order_by before rows ≡ₚ rows.
Proof.
  induction rows as [|r rows IH]; simpl; [done|].
  by rewrite sql_insert_Permutation, IH.
Qed.

Lemma order_by_elem_of {A} (before : A → A → bool) rows x :
  x ∈ order_by before rows ↔ x ∈ rows.
Proof. by rewrite order_by_Permutation. Qed.

(** After [order by], no row is followed by one that had to come
    strictly before it. *)
Lemma sql_insert_Sorted {A} (before : A → A → bool) x l :
  (∀ a b, before a b = true → before b a = false) →
  Sorted (λ a b, before b a = false) l →
  Sorted (λ a b, before b a = false) (sql_insert before x l).
Proof.
  intros Hasym. induction l as [|y l IH]; intros Hsorted; simpl.
  - by repeat constructor.
  - destruct (before y x) eqn:Hyx.
    + apply Sorted_inv in Hsorted as [Hl Hhd]. constructor; [by apply IH|].
      destruct l as [|z l]; simpl.
      * constructor. by apply Hasym.
      * destruct (before z x); constructor.
        -- by apply HdRel_inv in Hhd.
        -- by apply Hasym.
    + constructor; [done|]. by constructor.
Qed.

Lemma order_by_Sorted {A} (before : A → A → bool) rows :
  (∀ a b, before a b = true → before b a = false) →
  Sorted (λ a b, before b a = false) (order_by before rows).
Proof.
  intros Hasym. induction rows as [|r rows IH]; simpl; [constructor|].
  by apply sql_insert_Sorted.
Qed.

Lemma Sorted_impl {A} (R R' : relation A) (l : list A) :
  (∀ a b, R a b → R' a b) → Sorted R l → Sorted R' l.
Proof.
  intros HR. induction 1 as [|x l Hl IH Hhd]; constructor; [done|].
  destruct Hhd; constructor. by apply HR.
Qed.

Lemma ltb_false_le (s1 s2 : string) :
  String.ltb s1 s2 = false ↔ String.le s2 s1.
Proof.
  unfold String.le, String.ltb, String.leb.
  rewrite (String.compare_antisym s1 s2).
  destruct (String.compare s2 s1); simpl; split; intros H; try done.
Qed.

Lemma ltb_asym (s1 s2 : string) :
  String.ltb s1 s2 = true → String.ltb s2 s1 = false.
Proof.
  unfold String.ltb. rewrite (String.compare_antisym s1 s2).
  by destruct (String.compare s2 s1).
Qed.

Lemma order_by_date_desc rows : newest_first (order_by date_desc rows).
Proof.
  apply Sorted_StronglySorted.
  { intros a b c Hab Hbc. by etrans. }
  eapply Sorted_impl; [|apply (order_by_Sorted date_desc)].
  - intros a b Hab. by apply ltb_false_le in Hab.
  - intros a b. apply ltb_asym.
Qed.

Lemma order_by_date_asc rows : oldest_first (order_by date_asc rows).
Proof.
  apply Sorted_StronglySorted.
  { intros a b c Hab Hbc. by etrans. }
  eapply Sorted_impl; [|apply (order_by_Sorted date_asc)].
  - intros a b Hab. by apply ltb_false_le in Hab.
  - intros a b. apply ltb_asym.
Qed.

Lemma StronglySorted_prefix {A} (R : relation A) (l1 l2 : list A) :
  StronglySorted R (l1 ++ l2) → StronglySorted R l1.
Proof. rewrite StronglySorted_app. by intros (? & ? & ?). Qed.

Lemma sql_limit_StronglySorted {A} (R : relation A) limit (rows : list A) :
  StronglySorted R rows → StronglySorted R (sql_limit limit rows).
Proof.
  destruct (sql_limit_prefix limit rows) as [rest Hrows].
  intros Hs. rewrite Hrows in Hs. by eapply StronglySorted_prefix.
Qed.

Lemma inner_join_elem_of (vs : list VersionsRow) (fl : list FilesRow) r :
  r ∈ inner_join vs fl ↔
  j_version r ∈ vs ∧
  ∃ f, f ∈ fl ∧ file_id f = v_file (j_version r) ∧ j_checksum r = checksum f.
Proof.
  unfold inner_join. rewrite list_elem_of_In, in_flat_map. split.
  - intros (v & Hv & Hr). apply in_map_iff in Hr as (f & <- & Hf).
    apply filter_In in Hf as [Hf Hid]. simpl.
    split; [by apply list_elem_of_In|].
    exists f. split; [by apply list_elem_of_In|].
    split; [|done]. symmetry. by apply Z.eqb_eq.
  - intros [Hv (f & Hf & Hid & Hck)]. exists (j_version r).
    split; [by apply list_elem_of_In|].
    apply in_map_iff. exists f. split.
    + destruct r as [v c]; simpl in *. by rewrite Hck.
    + apply filter_In. split; [by apply list_elem_of_In|].
      apply Z.eqb_eq. by symmetry.
Qed.

Lemma select_joined_elem_of from d where_ before limit r :
  r ∈ select_joined from d where_ before limit →
  r ∈ inner_join from (tbl_Files d) ∧ where_ r = true.
Proof.
  unfold select_joined. intros Hr%sql_limit_elem_of.
  apply order_by_elem_of in Hr. rewrite list_elem_of_In in Hr.
  apply filter_In in Hr as [Hr Hw]. by rewrite list_elem_of_In.
Qed.

Lemma select_joined_unlimited from d where_ before limit r :
  (limit < 0)%Z →
  r ∈ select_joined from d where_ before limit ↔
  r ∈ inner_join from (tbl_Files d) ∧ where_ r = true.
Proof.
  intros Hlimit. unfold select_joined, sql_limit.
  destruct (Z.ltb_spec limit 0); [|lia].
  rewrite order_by_elem_of, !list_elem_of_In, filter_In. done.
Qed.

Lemma select_joined_length from d where_ before limit :
  (0 ≤ limit)%Z →
  (Z.of_nat (length (select_joined from d where_ before limit)) ≤ limit)%Z.
Proof. apply sql_limit_length. Qed.

(** ** Facts about the row loop *)

Lemma getVersions_rows_mapM fs rows acc :
  getVersions_rows fs rows acc =
  match mapM (fileVersion_of fs) rows with
  | Some vs => (mk_slice (acc ++ vs), None)
  | None => (nil_slice, Some ErrInvalidDate)
  end.
Proof.
  revert acc. induction rows as [|row rows IH]; intros acc; simpl.
  - by rewrite app_nil_r.
  - pose proof (eq_refl (fileVersion_of fs row)) as Hfv.
    unfold fileVersion_of at 2 in Hfv.
    destruct (ParseDBDate (v_date (j_version row))) as [from|];
      rewrite Hfv; cbn; [|done].
    rewrite IH. destruct (mapM (fileVersion_of fs) rows); cbn; [|done].
    by rewrite <- app_assoc.
Qed.

Lemma getVersions_mapM fs rows :
  getVersions fs rows =
  match mapM (fileVersion_of fs) rows with
  | Some vs => (mk_slice vs, None)
  | None => (nil_slice, Some ErrInvalidDate)
  end.
Proof. unfold getVersions. by rewrite getVersions_rows_mapM. Qed.

Lemma getVersions_invalid_date fs rows row :
  row ∈ rows → ParseDBDate (v_date (j_version row)) = None →
  getVersions fs rows = (nil_slice, Some ErrInvalidDate).
Proof.
  intros Hrow Hdate. rewrite getVersions_mapM.
  destruct (mapM (fileVersion_of fs) rows) as [vs|] eqn:Hvs; [|done].
  apply mapM_Some in Hvs.
  apply list_elem_of_lookup in Hrow as [i Hi].
  destruct (Forall2_lookup_l _ _ _ _ _ Hvs Hi) as (v & _ & Hv).
  unfold fileVersion_of in Hv. by rewrite Hdate in Hv.
Qed.

(** ** Strings *)

Lemma append_assoc (a b c : string) : (a +:+ b) +:+ c = a +:+ (b +:+ c).
Proof.
  induction a as [|x a IH]; [done|].
  change (String x ((a +:+ b) +:+ c) = String x (a +:+ (b +:+ c))).
  by f_equal.
Qed.

Lemma chars_append (a b : string) : chars (a +:+ b) = chars a ++ chars b.
Proof.
  induction a as [|x a IH]; [done|].
  change (x :: chars (a +:+ b) = x :: (chars a ++ chars b)).
  by f_equal.
Qed.

Lemma chars_text (l : list ascii) : chars (text l) = l.
Proof. apply list_ascii_of_string_of_list_ascii. Qed.

Lemma text_chars (s : string) : text (chars s) = s.
Proof. apply string_of_list_ascii_of_string. Qed.

(** ** The sanitizer *)

Lemma replacement_safeReplacer (c : ascii) :
  replacement safeReplacer c = if unsafe_char c then Some "" else None.
Proof.
  unfold safeReplacer, unsafe_char. cbn [replacement existsb].
  repeat (match goal with |- context [Ascii.eqb c ?d] =>
            destruct (Ascii.eqb c d); [done|] end).
  done.
Qed.

Lemma Replace_safeReplacer (word : string) :
  Replace safeReplacer word =
  text (List.filter (λ c, negb (unsafe_char c)) (chars word)).
Proof.
  induction word as [|c word IH]; [done|].
  cbn [Replace]. rewrite replacement_safeReplacer.
  unfold chars, text in *. cbn [list_ascii_of_string List.filter].
  destruct (unsafe_char c); cbn; by rewrite IH.
Qed.

Lemma unsafe_char_false (c : ascii) :
  unsafe_char c = false →
  c ≠ "'"%char ∧ c ≠ "%"%char ∧ c ≠ ";"%char ∧ c ≠ dquote ∧ c ≠ "\"%char.
Proof.
  unfold unsafe_char. cbn [existsb]. intros H.
  repeat (apply orb_false_elim in H as [?%Ascii.eqb_neq H]).
  done.
Qed.

(** C7. [buildTerm] deletes every quote, percent sign, semicolon and
    backslash of the word: the sanitized word is the input with those
    characters filtered out (nothing is put in their place), hence
    contains none of them, and it is this word around which the four
    patterns, and the SQL text of [buildTerm], are built. *)
Theorem buildTerm_strips_unsafe_chars (column word : string) :
  let safe := text (List.filter (λ c, negb (unsafe_char c)) (chars word)) in
  Replace safeReplacer word = safe
  ∧ (∀ c, c ∈ chars safe →
       c ≠ "'"%char ∧ c ≠ "%"%char ∧ c ≠ ";"%char ∧ c ≠ dquote ∧ c ≠ "\"%char)
  ∧ like_patterns word =
      [ "% " +:+ safe; safe +:+ " %"; "% " +:+ safe +:+ " %"; safe ]
  ∧ buildTerm column word =
      strings_Join (map (render_like column) (like_patterns word)) " or ".
Proof.
  intros safe. split; [apply Replace_safeReplacer|]. split; [|split].
  - intros c Hc. subst safe. rewrite chars_text in Hc.
    apply list_elem_of_In, filter_In in Hc as [_ Hc].
    apply unsafe_char_false. by destruct (unsafe_char c).
  - unfold like_patterns. by rewrite Replace_safeReplacer.
  - unfold buildTerm, like_patterns, render_like. cbn [map strings_Join].
    by rewrite !append_assoc.
Qed.

(** ** The open state *)

Lemma ToSlash_unix (path : string) : filepath_ToSlash path = path.
Proof. reflexivity. Qed.

Lemma FromSlash_unix (path : string) : filepath_FromSlash path = path.
Proof. reflexivity. Qed.

Lemma stmt_error_open fs : db fs = db_open → stmt_error fs = None.
Proof. unfold stmt_error. by intros ->. Qed.

Lemma is_nil_open fs : db fs = db_open → is_nil (db fs) = false.
Proof. by intros ->. Qed.

Lemma Versions_open fs path limit w :
  db fs = db_open →
  Versions fs path limit w = getVersions fs (getVersionsStmt (sqlite w) path limit).
Proof. intros Hopen. unfold Versions, stmt_error. by rewrite Hopen. Qed.

Lemma VersionsAfter_open fs path after limit w :
  db fs = db_open →
  VersionsAfter fs path after limit w =
  getVersions fs (getVersionsAfterStmt (sqlite w) path (ToDBDate after) limit).
Proof. intros Hopen. unfold VersionsAfter, stmt_error. by rewrite Hopen. Qed.

Lemma search_open fs term limit fuzzy w m :
  db fs = db_open → fts5_match term = Some m →
  search fs term limit fuzzy w =
  getVersions fs
    (searchStmt (sqlite w) (if fuzzy then v_fuzzy else v_info) m limit).
Proof.
  intros Hopen Hm. unfold search, stmt_error. by rewrite Hopen, Hm.
Qed.

Lemma simple_term_empty first words :
  String.eqb (simple_term first words) "" = true → words = [].
Proof.
  destruct words as [|word rest]; [done|]. intros H.
  apply String.eqb_eq in H. apply (f_equal chars) in H.
  unfold simple_term in H; fold simple_term in H. unfold buildTerm in H.
  rewrite !chars_append in H. by destruct first.
Qed.

Lemma SimpleSearch_open fs words limit w :
  db fs = db_open → words ≠ [] →
  SimpleSearch fs words limit w =
  getVersions fs (simpleSearchStmt (sqlite w) words limit).
Proof.
  intros Hopen Hwords. unfold SimpleSearch, stmt_error. rewrite Hopen. simpl.
  destruct (String.eqb (simple_term true words) "") eqn:Hterm; [|done].
  by apply simple_term_empty in Hterm.
Qed.

Lemma no_rows_for_path d where_ before limit path :
  (∀ v, v ∈ tbl_Versions d → v_path v ≠ path) →
  select_joined (tbl_Versions d) d (λ r, path_is path r && where_ r)
    before limit = [].
Proof.
  intros Hnone. unfold select_joined.
  assert (List.filter (λ r, path_is path r && where_ r)
            (inner_join (tbl_Versions d) (tbl_Files d)) = []) as ->.
  { apply elem_of_nil_inv. intros r Hr.
    apply list_elem_of_In, filter_In in Hr as [Hr Hp].
    apply list_elem_of_In, inner_join_elem_of in Hr as [Hv _].
    apply andb_true_iff in Hp as [Hp _]. apply String.eqb_eq in Hp.
    by apply (Hnone _ Hv). }
  simpl. unfold sql_limit. destruct (limit <? 0)%Z; [done|]. by rewrite take_nil.
Qed.

Lemma select_joined_ext from d p q before limit :
  (∀ r, p r = q r) →
  select_joined from d p before limit = select_joined from d q before limit.
Proof.
  intros Hpq. unfold select_joined. do 2 f_equal.
  apply List.filter_ext. intros r. apply Hpq.
Qed.

(** C10. On an open store, for a path without any version row, both
    [Versions] and [VersionsAfter] return an allocated empty slice
    and a nil error, whatever the limit and the date, whereas [Get]
    returns an error. *)
Theorem unknown_path_empty_history fs w path after limit :
  db fs = db_open →
  (∀ v, v ∈ tbl_Versions (sqlite w) → v_path v ≠ path) →
  Versions fs path limit w = (mk_slice [], None)
  ∧ VersionsAfter fs path after limit w = (mk_slice [], None)
  ∧ ∃ err, Get fs path w = (FileVersion.zero, Some err).
Proof.
  intros Hopen Hnone. split; [|split].
  - rewrite Versions_open by done. unfold getVersionsStmt.
    rewrite (select_joined_ext _ _ _ (λ r, path_is path r && true)).
    + by rewrite no_rows_for_path.
    + intros r. by rewrite andb_true_r.
  - rewrite VersionsAfter_open by done. unfold getVersionsAfterStmt.
    by rewrite no_rows_for_path.
  - exists (dbError sql_ErrNoRows).
    unfold Get, stmt_error. rewrite Hopen, ToSlash_unix. simpl.
    unfold getVersionStmt.
    rewrite (select_joined_ext _ _ _ (λ r, path_is path r && true)).
    + by rewrite no_rows_for_path.
    + intros r. by rewrite andb_true_r.
Qed.

(** C8, amended. On a store that was never opened (its handle is
    nil) [Add], [Get], [Versions], [VersionsAfter], [SimpleSearch],
    [Search] and [FuzzySearch] return [ErrNotOpen], [Add] leaving
    disk and catalog as they were, and [Has] answers false.
    [Restore] and [RestoreAtSource] do not look at the handle: they
    behave on such a store as on an open one. *)
Theorem never_opened_store fs env o w path info version after limit words
    term v dst :
  db fs = db_nil →
  Add fs env path info version w = (Some ErrNotOpen, w)
  ∧ Get fs path w = (FileVersion.zero, Some ErrNotOpen)
  ∧ Versions fs path limit w = (nil_slice, Some ErrNotOpen)
  ∧ VersionsAfter fs path after limit w = (nil_slice, Some ErrNotOpen)
  ∧ SimpleSearch fs words limit w = (nil_slice, Some ErrNotOpen)
  ∧ Search fs term limit w = (nil_slice, Some ErrNotOpen)
  ∧ FuzzySearch fs term limit w = (nil_slice, Some ErrNotOpen)
  ∧ Has fs path w = false
  ∧ Restore fs o v dst w =
      Restore (mkFilestore (Dir fs) (Options fs) db_open) o v dst w
  ∧ RestoreAtSource fs o v w =
      RestoreAtSource (mkFilestore (Dir fs) (Options fs) db_open) o v w.
Proof.
  intros Hnil.
  unfold Add, Get, Versions, VersionsAfter, SimpleSearch, Search, FuzzySearch,
    search, Has. rewrite Hnil. simpl. repeat split; reflexivity.
Qed.

(** After [Close] the handle is not nil: a later [Get] reports the
    error of the closed handle, not [ErrNotOpen]. *)
Lemma Get_after_Close fs path w :
  db fs = db_open →
  Get (snd (Close fs)) path w = (FileVersion.zero, Some (dbError sql_ErrClosed)).
Proof. intros Hopen. unfold Close. by rewrite Hopen. Qed.

(** C9. On an open store, a version row whose stored date does not
    parse makes every read that gets this row from its statement
    fail with [ErrInvalidDate]: [Get] when it is the row selected,
    and [Versions], [VersionsAfter], [SimpleSearch], [Search] and
    [FuzzySearch] when it is among the rows of the result set. No
    [FileVersion] is returned with it. *)
Theorem malformed_date_is_an_error fs w row :
  db fs = db_open →
  ParseDBDate (v_date (j_version row)) = None →
  (∀ path, head (getVersionStmt (sqlite w) (filepath_ToSlash path)) = Some row →
     Get fs path w = (FileVersion.zero, Some ErrInvalidDate))
  ∧ (∀ path limit, row ∈ getVersionsStmt (sqlite w) path limit →
     Versions fs path limit w = (nil_slice, Some ErrInvalidDate))
  ∧ (∀ path after limit,
     row ∈ getVersionsAfterStmt (sqlite w) path (ToDBDate after) limit →
     VersionsAfter fs path after limit w = (nil_slice, Some ErrInvalidDate))
  ∧ (∀ words limit, row ∈ simpleSearchStmt (sqlite w) words limit →
     SimpleSearch fs words limit w = (nil_slice, Some ErrInvalidDate))
  ∧ (∀ term limit m, fts5_match term = Some m →
     (row ∈ searchStmt (sqlite w) v_info m limit →
      Search fs term limit w = (nil_slice, Some ErrInvalidDate))
     ∧ (row ∈ searchStmt (sqlite w) v_fuzzy m limit →
        FuzzySearch fs term limit w = (nil_slice, Some ErrInvalidDate))).
Proof.
  intros Hopen Hdate. repeat split.
  - intros path Hrow. unfold Get, stmt_error. rewrite Hopen. simpl.
    destruct (getVersionStmt (sqlite w) (filepath_ToSlash path))
      as [|row' rest]; [done|].
    simpl in Hrow. injection Hrow as ->. by rewrite Hdate.
  - intros path limit Hrow. rewrite Versions_open by done.
    by eapply getVersions_invalid_date.
  - intros path after limit Hrow. rewrite VersionsAfter_open by done.
    by eapply getVersions_invalid_date.
  - intros words limit Hrow. rewrite SimpleSearch_open; [|done|].
    + by eapply getVersions_invalid_date.
    + intros ->. apply select_joined_elem_of in Hrow as [_ Hw]. done.
  - intros Hrow. unfold Search. rewrite (search_open _ _ _ _ _ m) by done.
    by eapply getVersions_invalid_date.
  - intros Hrow. unfold FuzzySearch. rewrite (search_open _ _ _ _ _ m) by done.
    by eapply getVersions_invalid_date.
Qed.

(** ** Result sets and the versions returned for them *)

Lemma getVersions_Some fs rows vs :
  getVersions fs rows = (mk_slice vs, None) ↔ versions_of fs rows vs.
Proof.
  rewrite getVersions_mapM. unfold versions_of. rewrite <- mapM_Some.
  destruct (mapM (fileVersion_of fs) rows); split; intros H;
    try done; congruence.
Qed.

Lemma versions_of_length fs rows vs :
  versions_of fs rows vs → length vs = length rows.
Proof. intros H. symmetry. by eapply Forall2_length. Qed.

Lemma getVersionStmt_limit_1 d path :
  getVersionStmt d path = getVersionsStmt d path 1.
Proof. reflexivity. Qed.

Lemma limit_1_cases {A} (rows : list A) :
  sql_limit 1 rows = [] ∨ ∃ r, sql_limit 1 rows = [r].
Proof. destruct rows as [|r rows]; [by left|right]. by exists r. Qed.

Lemma Get_first_of_Versions fs w path v :
  db fs = db_open →
  Get fs path w = (v, None) ↔ Versions fs path 1 w = (mk_slice [v], None).
Proof.
  intros Hopen. rewrite Versions_open by done.
  unfold Get, stmt_error. rewrite Hopen, ToSlash_unix, getVersionStmt_limit_1.
  simpl. rewrite getVersions_mapM.
  pose proof (select_joined_elem_of (tbl_Versions (sqlite w)) (sqlite w)
                (path_is path) date_desc 1) as Hin.
  unfold getVersionsStmt in *. unfold select_joined in *.
  destruct (limit_1_cases
              (order_by date_desc
                 (List.filter (path_is path)
                    (inner_join (tbl_Versions (sqlite w))
                       (tbl_Files (sqlite w)))))) as [Hl|[row Hl]];
    rewrite Hl in *.
  - simpl. split; intros H; congruence.
  - destruct (Hin row) as [_ Hpath]; [by apply list_elem_of_here|].
    apply String.eqb_eq in Hpath.
    cbn [mapM]. unfold fileVersion_of. rewrite FromSlash_unix, Hpath.
    destruct (ParseDBDate (v_date (j_version row))); cbn;
      split; intros H; congruence.
Qed.

(** C4, amended. On an open store, for a limit of at least one,
    [Versions] returns at most [limit] records; they stand, in
    order, for rows of the catalog recorded for the path, and these
    rows come newest first by their stored timestamp: every record
    is at least as recent as all records behind it. The order among
    records of equal timestamp is not decided by their identity.
    [Get] returns a version exactly when [Versions] with limit one
    returns that version alone. *)
Theorem history_newest_first fs w path limit :
  db fs = db_open → (1 ≤ limit)%Z →
  (∀ vs, Versions fs path limit w = (mk_slice vs, None) →
     (Z.of_nat (length vs) ≤ limit)%Z
     ∧ ∃ rows,
         versions_of fs rows vs
         ∧ newest_first rows
         ∧ ∀ r, r ∈ rows →
             r ∈ inner_join (tbl_Versions (sqlite w)) (tbl_Files (sqlite w))
             ∧ v_path (j_version r) = path)
  ∧ (∀ v, Get fs path w = (v, None) ↔
          Versions fs path 1 w = (mk_slice [v], None)).
Proof.
  intros Hopen Hlimit. split; [|intros v; by apply Get_first_of_Versions].
  intros vs Hvs. rewrite Versions_open in Hvs by done.
  apply getVersions_Some in Hvs. split.
  - rewrite (versions_of_length _ _ _ Hvs).
    apply select_joined_length. lia.
  - exists (getVersionsStmt (sqlite w) path limit). split; [done|]. split.
    + apply sql_limit_StronglySorted, order_by_date_desc.
    + intros r Hr. apply select_joined_elem_of in Hr as [Hr Hp].
      split; [done|]. by apply String.eqb_eq.
Qed.

(** C5, amended. On an open store, for a term the full-text engine
    accepts, [Search] and [FuzzySearch] return versions that stand,
    in order, for rows of the full-text table joined with [Files];
    these rows come oldest first by their stored timestamp, number
    at most [limit] when the limit is not negative (a negative limit
    does not bound the result), and are rows whose info column (for
    [Search]) or fuzzy column (for [FuzzySearch]), version column or
    date column matches the term; without a bound every such row is
    among them. The two searches differ in that one column only. *)
Theorem search_oldest_first fs w term limit m (fuzzy : bool) :
  db fs = db_open → fts5_match term = Some m →
  let column := if fuzzy then v_fuzzy else v_info in
  let result :=
    if fuzzy then FuzzySearch fs term limit w else Search fs term limit w in
  let joined :=
    inner_join (tbl_VersionsFts (sqlite w)) (tbl_Files (sqlite w)) in
  let matched (r : JoinedRow) :=
    m (column (j_version r)) || m (v_version (j_version r))
    || m (v_date (j_version r)) in
  ∃ rows,
    result = getVersions fs rows
    ∧ (∀ vs, result = (mk_slice vs, None) → versions_of fs rows vs)
    ∧ oldest_first rows
    ∧ ((0 ≤ limit)%Z → (Z.of_nat (length rows) ≤ limit)%Z)
    ∧ (∀ r, r ∈ rows → r ∈ joined ∧ matched r = true)
    ∧ ((limit < 0)%Z → ∀ r, r ∈ joined → matched r = true → r ∈ rows).
Proof.
  intros Hopen Hm column result joined matched.
  exists (searchStmt (sqlite w) column m limit).
  assert (result = getVersions fs (searchStmt (sqlite w) column m limit))
    as Hresult.
  { subst result column. unfold FuzzySearch, Search.
    destruct fuzzy; by rewrite (search_open _ _ _ _ _ m). }
  split; [done|]. split; [|split; [|split; [|split]]].
  - intros vs Hvs. rewrite Hresult in Hvs. by apply getVersions_Some.
  - apply sql_limit_StronglySorted, order_by_date_asc.
  - apply select_joined_length.
  - intros r Hr. by apply select_joined_elem_of in Hr.
  - intros Hneg r Hr Hmatch. unfold searchStmt.
    by apply select_joined_unlimited.
Qed.

(** ** Adding versions *)

Lemma foldr_max_ge (j : Z) (ids : list Z) (i : Z) :
  i ∈ j :: ids → (i ≤ foldr Z.max j ids)%Z.
Proof.
  revert i. induction ids as [|k ids IH]; intros i Hi; simpl.
  - apply list_elem_of_singleton in Hi as ->. lia.
  - apply elem_of_cons in Hi as [->|Hi].
    + specialize (IH j (list_elem_of_here _ _)). lia.
    + apply elem_of_cons in Hi as [->|Hi]; [lia|].
      specialize (IH i (list_elem_of_further _ _ _ Hi)). lia.
Qed.

Lemma next_rowid_gt (ids : list Z) (i : Z) : i ∈ ids → (i < next_rowid ids)%Z.
Proof.
  destruct ids as [|j ids]; [by intros ?%elem_of_nil|].
  intros Hi%foldr_max_ge. unfold next_rowid. lia.
Qed.


Lemma filter_checksum_none (l : list FilesRow) (check : string) :
  check ∉ map checksum l →
  List.filter (λ f, String.eqb (checksum f) check) l = [].
Proof.
  induction l as [|f l IH]; [done|].
  intros Hnot. simpl in *. apply not_elem_of_cons in Hnot as [Hne Hnot].
  destruct (String.eqb_spec (checksum f) check) as [Heq|_]; [done|].
  by apply IH.
Qed.


Lemma queryIDStmt_none d check :
  check ∉ map checksum (tbl_Files d) → queryIDStmt d check = [].
Proof. intros H. unfold queryIDStmt. by rewrite filter_checksum_none. Qed.


Lemma insertFileStmt_inv check d id d' :
  insertFileStmt check d = (id, None, d') →
  (check ∉ map checksum (tbl_Files d))
  ∧ id = next_rowid (map file_id (tbl_Files d))
  ∧ d' = mkDatabase (tbl_Files d ++ [mkFilesRow id check]) (tbl_Versions d)
           (tbl_VersionsFts d).
Proof.
  unfold insertFileStmt.
  destruct (existsb (λ f, String.eqb (checksum f) check) (tbl_Files d)) eqn:Hex;
    [done|].
  intros [= <- <-]. split; [|done].
  intros Hin. apply list_elem_of_fmap in Hin as (f & -> & Hf).
  apply not_true_iff_false in Hex. apply Hex, existsb_exists.
  exists f. split; [by apply list_elem_of_In|]. apply String.eqb_refl.
Qed.


Lemma write_stream_sqlite o dst data w :
  sqlite (snd (write_stream o dst data w)) = sqlite w.
Proof. by destruct o. Qed.

Lemma copyFile_sqlite o src dst c r w :
  sqlite (snd (copyFile o src dst c r w)) = sqlite w.
Proof.
  unfold copyFile. destruct (os_Stat w src); [|done].
  destruct (files (os_Create dst w) !! src); [|done].
  destruct c; [destruct r|].
  - destruct (snappy_decode _) as [plain ok].
    pose proof (write_stream_sqlite o dst plain (os_Create dst w)) as H.
    destruct (write_stream o dst plain (os_Create dst w)) as [[e|] w']; simpl in *;
      [done|]. by destruct ok.
  - by rewrite write_stream_sqlite.
  - by rewrite write_stream_sqlite.
Qed.

Lemma ensureDirectory_sqlite path perm w :
  sqlite (snd (ensureDirectory path perm w)) = sqlite w.
Proof. unfold ensureDirectory. by destruct (os_Stat w path) as [[]|]. Qed.

Lemma ensureDirectory_files path perm w :
  files (snd (ensureDirectory path perm w)) = files w.
Proof. unfold ensureDirectory. by destruct (os_Stat w path) as [[]|]. Qed.

(** The errors of [copyFile] are I/O errors. *)
Lemma copyFile_io_error o src dst c r w err w' :
  copyFile o src dst c r w = (Some err, w') → is_io_error err = true.
Proof.
  unfold copyFile. destruct (os_Stat w src); [|by intros [= <- _]].
  destruct (files (os_Create dst w) !! src); [|by intros [= <- _]].
  assert (∀ data w0 e w1, write_stream o dst data w0 = (Some e, w1) →
            is_io_error e = true) as Hwrite.
  { intros data w0 e w1. unfold write_stream. destruct o; [done|].
    by intros [= <- _]. }
  destruct c; [destruct r|]; eauto.
  destruct (snappy_decode _) as [plain ok].
  destruct (write_stream o dst plain (os_Create dst w)) as [[e|] w1] eqn:Hw.
  - intros [= <- _]. eauto.
  - destruct ok; [done|]. by intros [= <- _].
Qed.

Lemma Add_open fs env path info version w data :
  db fs = db_open → files w !! path = Some data →
  Add fs env path info version w =
  addVersion fs env path info version
    (hex_EncodeToString (blake2b_Sum512 data)) w.
Proof. intros Hopen Hdata. unfold Add, Checksum. by rewrite Hopen, Hdata. Qed.

Lemma Checksum_Some fs path w check :
  Checksum fs path w = (check, None) →
  ∃ data, files w !! path = Some data
          ∧ check = hex_EncodeToString (blake2b_Sum512 data).
Proof.
  unfold Checksum. destruct (files w !! path) as [data|].
  - intros [= <-]. by exists data.
  - by destruct (decide _).
Qed.


(** The digest has no row: the steps of a call that returns no error. *)
Lemma addVersion_new fs env path info version check w w' :
  db fs = db_open →
  hd 0%Z (queryIDStmt (sqlite w) check) = 0%Z →
  addVersion fs env path info version check w = (None, w') →
  let name := filepath_Base path in
  ∃ w0 w1 id d,
    ensureDirectory (filepath_Dir (localPath fs name check)) 448 w = (None, w0)
    ∧ copyFile (io_copy env) path (blobFile fs name check)
        (flags_Has (Options fs) Compress) false w0 = (None, w1)
    ∧ insertFileStmt check (sqlite w1) = (id, None, d)
    ∧ w' = set_sqlite (insertVersionStmt (now env) (filepath_ToSlash path) info
                         (EncodeMetaphone info) version id)
             (set_sqlite (λ _, d) w1).
Proof.
  intros Hopen Hid. unfold addVersion, stmt_error, blobFile.
  rewrite Hopen, Hid. simpl.
  destruct (ensureDirectory _ 448 w) as [[e|] w0]; [done|].
  destruct (copyFile _ path _ _ false w0) as [[e|] w1] eqn:Hcopy; [done|].
  destruct (insertFileStmt check (sqlite w1)) as [[id [e|]] d] eqn:Hins; [done|].
  intros [= <-]. by exists w0, w1, id, d.
Qed.

(** The same steps, seen from [Add]. *)
Lemma Add_new_steps fs env path info version check w w' :
  db fs = db_open →
  check ∉ map checksum (tbl_Files (sqlite w)) →
  Checksum fs path w = (check, None) →
  Add fs env path info version w = (None, w') →
  let name := filepath_Base path in
  ∃ w0 w1 id d,
    ensureDirectory (filepath_Dir (localPath fs name check)) 448 w = (None, w0)
    ∧ copyFile (io_copy env) path (blobFile fs name check)
        (flags_Has (Options fs) Compress) false w0 = (None, w1)
    ∧ insertFileStmt check (sqlite w1) = (id, None, d)
    ∧ w' = set_sqlite (insertVersionStmt (now env) (filepath_ToSlash path) info
                         (EncodeMetaphone info) version id)
             (set_sqlite (λ _, d) w1).
Proof.
  intros Hopen Hnew Hsum Hadd.
  unfold Add in Hadd. rewrite Hopen, Hsum in Hadd. simpl in Hadd.
  apply addVersion_new in Hadd; [done..|]. by rewrite queryIDStmt_none.
Qed.

Lemma ensureDirectory_result path perm w e w0 :
  ensureDirectory path perm w = (e, w0) →
  sqlite w0 = sqlite w ∧ files w0 = files w.
Proof.
  intros H. pose proof (ensureDirectory_sqlite path perm w) as Hs.
  pose proof (ensureDirectory_files path perm w) as Hf.
  rewrite H in Hs, Hf. done.
Qed.

Lemma copyFile_result_sqlite o src dst c r w e w1 :
  copyFile o src dst c r w = (e, w1) → sqlite w1 = sqlite w.
Proof. intros H. pose proof (copyFile_sqlite o src dst c r w) as Hs. by rewrite H in Hs. Qed.

(** C3. On an open store, when [Add] has computed the checksum, found
    no [Files] row for it, ensured the blob directory, and the copy of
    the file into the blob store fails, then [Add] returns the copy
    error wrapped with context (an I/O error), no file is left at the
    blob destination, and the catalog is as before: neither a [Files]
    row nor a [Versions] row has been inserted. *)
Theorem failed_copy_leaves_catalog fs env path info version w check w0 err w1 :
  db fs = db_open →
  Checksum fs path w = (check, None) →
  hd 0%Z (queryIDStmt (sqlite w) check) = 0%Z →
  let name := filepath_Base path in
  let dst := blobFile fs name check in
  ensureDirectory (filepath_Dir (localPath fs name check)) 448 w = (None, w0) →
  copyFile (io_copy env) path dst (flags_Has (Options fs) Compress) false w0
  = (Some err, w1) →
  ∃ msg w',
    Add fs env path info version w = (Some (Errorf msg err), w')
    ∧ is_io_error (Errorf msg err) = true
    ∧ files w' !! dst = None
    ∧ tbl_Files (sqlite w') = tbl_Files (sqlite w)
    ∧ tbl_Versions (sqlite w') = tbl_Versions (sqlite w)
    ∧ sqlite w' = sqlite w.
Proof.
  intros Hopen Hsum Hid name dst Hdir Hcopy.
  exists ("filestore failed to copy file " +:+ String dquote name
          +:+ String dquote " to " +:+ dst), (os_Remove dst w1).
  assert (sqlite (os_Remove dst w1) = sqlite w) as Hsql.
  { apply copyFile_result_sqlite in Hcopy.
    apply ensureDirectory_result in Hdir as [Hdir _]. simpl. congruence. }
  split; [|split; [|split; [|split; [|split]]]].
  - unfold Add, addVersion, stmt_error. rewrite Hopen, Hsum, Hid. simpl.
    fold name. rewrite Hdir. unfold blobFile in dst. fold dst.
    by rewrite Hcopy.
  - change (is_io_error err = true). by eapply copyFile_io_error.
  - simpl. apply lookup_delete_eq.
  - by rewrite Hsql.
  - by rewrite Hsql.
  - done.
Qed.

(** ** One row per digest *)





Lemma write_stream_written o dst data w w1 :
  write_stream o dst data w = (None, w1) →
  o = copy_completes ∧ files w1 = <[dst := data]> (files w).
Proof. unfold write_stream. destruct o; [|done]. by intros [= <-]. Qed.

(** A copy that returns no error has written one file, the
    destination. *)
Lemma copyFile_written o src dst c r w w1 :
  copyFile o src dst c r w = (None, w1) →
  ∃ out, files w1 = <[dst := out]> (files w).
Proof.
  unfold copyFile. destruct (os_Stat w src); [|done].
  destruct (files (os_Create dst w) !! src) as [data|]; [|done].
  assert (∀ out w', write_stream o dst out (os_Create dst w) = (None, w') →
            files w' = <[dst := out]> (files w)) as Hwrite.
  { intros out w' [_ ->]%write_stream_written. simpl. apply insert_insert_eq. }
  destruct c; [destruct r|]; eauto.
  destruct (snappy_decode data) as [plain ok].
  destruct (write_stream o dst plain (os_Create dst w)) as [[e|] w'] eqn:Hw;
    [done|].
  destruct ok; [|done]. intros [= <-]. eauto.
Qed.

Lemma Add_new_digest_files fs env path info version w w' check :
  db fs = db_open →
  check ∉ map checksum (tbl_Files (sqlite w)) →
  Checksum fs path w = (check, None) →
  Add fs env path info version w = (None, w') →
  ∃ blob, files w' = <[blobFile fs (filepath_Base path) check := blob]> (files w).
Proof.
  intros Hopen Hnew Hsum Hadd.
  apply (Add_new_steps _ _ _ _ _ check) in Hadd as (w0 & w1 & id & d & Hdir & Hcopy & Hins & ->);
    [|done..].
  apply ensureDirectory_result in Hdir as [_ Hdir].
  apply copyFile_written in Hcopy as [blob Hcopy].
  exists blob. simpl. by rewrite Hcopy, Hdir.
Qed.


(** ** Restoring *)

Lemma append_neq (s t : string) : t ≠ "" → s +:+ t ≠ s.
Proof.
  intros Ht Heq. apply (f_equal chars) in Heq. rewrite chars_append in Heq.
  apply (f_equal length) in Heq. rewrite length_app in Heq.
  destruct t as [|c t]; [done|]. simpl in Heq. lia.
Qed.

Lemma ensureDirectory_dirs path perm w e w0 p :
  ensureDirectory path perm w = (e, w0) → p ∈ dirs w0 → p = path ∨ p ∈ dirs w.
Proof.
  unfold ensureDirectory.
  destruct (os_Stat w path) as [[]|]; intros [= _ <-]; simpl; auto.
  intros [Hp%elem_of_singleton|Hp]%elem_of_union; auto.
Qed.

Lemma write_stream_dirs o dst data w :
  dirs (snd (write_stream o dst data w)) = dirs w.
Proof. by destruct o. Qed.

Lemma copyFile_dirs o src dst c r w e w1 :
  copyFile o src dst c r w = (e, w1) → dirs w1 = dirs w.
Proof.
  unfold copyFile. destruct (os_Stat w src); [|by intros [= _ <-]].
  destruct (files (os_Create dst w) !! src) as [data|]; [|by intros [= _ <-]].
  assert (∀ out e' w', write_stream o dst out (os_Create dst w) = (e', w') →
            dirs w' = dirs w) as Hwrite.
  { intros out e' w' H.
    pose proof (write_stream_dirs o dst out (os_Create dst w)) as Hd.
    by rewrite H in Hd. }
  destruct c; [destruct r|]; eauto.
  destruct (snappy_decode data) as [plain ok].
  destruct (write_stream o dst plain (os_Create dst w)) as [[e'|] w'] eqn:Hw.
  - intros [= _ <-]. eauto.
  - destruct ok; intros [= _ <-]; eauto.
Qed.

(** The disk after an [Add] of content whose digest had no row. *)
Lemma Add_new_digest_disk fs env path info version w w' check :
  db fs = db_open →
  check ∉ map checksum (tbl_Files (sqlite w)) →
  Checksum fs path w = (check, None) →
  Add fs env path info version w = (None, w') →
  let name := filepath_Base path in
  (∃ blob, files w' = <[blobFile fs name check := blob]> (files w))
  ∧ (∀ p, p ∈ dirs w' →
       p = filepath_Dir (localPath fs name check) ∨ p ∈ dirs w)
  ∧ ∃ row, last (tbl_Versions (sqlite w')) = Some row
           ∧ v_path row = filepath_ToSlash path.
Proof.
  intros Hopen Hnew Hsum Hadd name.
  split; [by eapply Add_new_digest_files|].
  apply (Add_new_steps _ _ _ _ _ check) in Hadd as (w0 & w1 & id & d & Hdir & Hcopy & Hins & ->);
    [|done..].
  split.
  - intros p Hp. simpl in Hp. rewrite (copyFile_dirs _ _ _ _ _ _ _ _ Hcopy) in Hp.
    by eapply ensureDirectory_dirs.
  - eexists. simpl. by rewrite last_snoc.
Qed.

(** C2, at the compressed code path. On an open store with the
    compression option set, after a successful [Add] of a file whose
    digest had no row (nothing existing beforehand at the blob
    location of that digest), the blob lies at the blob location with
    the suffix [.snappy], and [Restore] of the version just recorded
    fails, for every destination and whatever the disk does: it opens
    the blob location without the suffix, where no file is. The file
    content is not reproduced. *)
Theorem restore_misses_compressed_blob fs env o path info version w w1 check
    row v dst :
  db fs = db_open →
  flags_Has (Options fs) Compress = true →
  check ∉ map checksum (tbl_Files (sqlite w)) →
  Checksum fs path w = (check, None) →
  Add fs env path info version w = (None, w1) →
  let src := localPath fs (filepath_Base path) check in
  os_Stat w src = None →
  filepath_Dir src ≠ src →
  last (tbl_Versions (sqlite w1)) = Some row →
  fileVersion_of fs (mkJoinedRow row check) = Some v →
  (∃ blob, files w1 !! (src +:+ ".snappy") = Some blob)
  ∧ files w1 !! src = None
  ∧ Restore fs o v dst w1 = (Some (PathError "open" src ENOENT), w1).
Proof.
  intros Hopen Hcompress Hnew Hsum Hadd src Hstat Hdir Hrow Hv.
  destruct (Add_new_digest_disk _ _ _ _ _ _ _ _ Hopen Hnew Hsum Hadd)
    as ([blob Hfiles] & Hdirs & row' & Hlast & Hpath).
  rewrite Hrow in Hlast. injection Hlast as <-.
  unfold blobFile in Hfiles. rewrite Hcompress in Hfiles. fold src in Hfiles.
  assert (files w !! src = None) as Hnofile.
  { unfold os_Stat in Hstat. by destruct (files w !! src). }
  assert (src ∉ dirs w) as Hnodir.
  { unfold os_Stat in Hstat. rewrite Hnofile in Hstat.
    by destruct (decide (src ∈ dirs w)). }
  assert (files w1 !! src = None) as Hnofile1.
  { rewrite Hfiles, lookup_insert_ne; [done|]. by apply append_neq. }
  split; [exists blob; by rewrite Hfiles, lookup_insert_eq|]. split; [done|].
  unfold fileVersion_of in Hv. simpl in Hv.
  destruct (ParseDBDate (v_date row)) as [from|]; [|done].
  injection Hv as <-. unfold Restore, copyFile. simpl.
  rewrite FromSlash_unix, Hpath, ToSlash_unix. fold src.
  unfold os_Stat. rewrite Hnofile1.
  destruct (decide (src ∈ dirs w1)) as [Hin|]; [|done].
  apply Hdirs in Hin as [Hin|Hin]; [|done]. fold src in Hin. by symmetry in Hin.
Qed.

(** ** The [LIKE] patterns of [buildTerm] *)






Lemma like_eqb_space d : like_eqb " " d = true → d = " "%char.
Proof.
  unfold like_eqb. intros H. apply Ascii.eqb_eq in H.
  destruct d as [[] [] [] [] [] [] [] []]; vm_compute in H; congruence.
Qed.

Lemma same_text_space s : same_text [" "%char] s ↔ s = [" "%char].
Proof.
  split.
  - intros H. inversion H as [|c d l1 l2 Hcd Hrest]; subst.
    inversion Hrest; subst. by rewrite (like_eqb_space d).
  - intros ->. by repeat constructor.
Qed.







(** ** The round trip that does hold *)

Lemma copyFile_plain o src dst r w w1 data :
  files w !! src = Some data → src ≠ dst →
  copyFile o src dst false r w = (None, w1) →
  files w1 = <[dst := data]> (files w).
Proof.
  intros Hsrc Hne. unfold copyFile, os_Stat. rewrite Hsrc. simpl.
  rewrite lookup_insert_ne by done. rewrite Hsrc.
  intros [_ ->]%write_stream_written. simpl. apply insert_insert_eq.
Qed.

(** Without compression, a version recorded by the [Add] that wrote
    the blob of its digest is restored byte for byte, into any
    directory, provided neither the source nor the restored file is
    the blob itself. *)
Lemma restore_uncompressed_round_trip fs env path info version w w1 data check
    v dst :
  db fs = db_open →
  flags_Has (Options fs) Compress = false →
  check ∉ map checksum (tbl_Files (sqlite w)) →
  files w !! path = Some data →
  Checksum fs path w = (check, None) →
  Add fs env path info version w = (None, w1) →
  let blob := localPath fs (filepath_Base path) check in
  let target := asDirectoryPath dst +:+ filepath_Base path in
  path ≠ blob → target ≠ blob →
  FileVersion.Name v = filepath_Base path →
  FileVersion.Checksum v = check →
  ∃ w2, Restore fs copy_completes v dst w1 = (None, w2)
        ∧ files w2 !! target = Some data.
Proof.
  intros Hopen Hplain Hnew Hdata Hsum Hadd blob target Hsrc Htarget Hname Hcheck.
  apply (Add_new_steps _ _ _ _ _ check) in Hadd as (w0 & w' & id & d & Hdir & Hcopy & Hins & ->);
    [|done..].
  apply ensureDirectory_result in Hdir as [_ Hdir].
  unfold blobFile in Hcopy. rewrite Hplain in Hcopy. fold blob in Hcopy.
  apply (copyFile_plain _ _ _ _ _ _ data) in Hcopy; [|by rewrite Hdir|done].
  rewrite Hdir in Hcopy.
  unfold Restore. rewrite Hplain, Hname, Hcheck. fold blob target.
  unfold copyFile, os_Stat, write_stream. simpl. rewrite Hcopy.
  rewrite lookup_insert_eq. rewrite lookup_insert_ne by done.
  rewrite lookup_insert_eq. eexists. split; [done|]. simpl.
  apply lookup_insert_eq.
Qed.

(** ** What one [Add] does to the catalog *)

Lemma hd_filter_elem_of {A} (p : A → bool) (key : A → Z) (l : list A) (id : Z) :
  hd 0%Z (map key (List.filter p l)) = id → id ≠ 0%Z →
  ∃ x, x ∈ l ∧ p x = true ∧ key x = id.
Proof.
  intros Hhd Hnz. destruct (List.filter p l) as [|x rest] eqn:Hfilter;
    simpl in Hhd; [congruence|].
  assert (In x (List.filter p l)) as Hx by (rewrite Hfilter; by left).
  apply filter_In in Hx as [Hx Hp]. exists x.
  split; [by apply list_elem_of_In|]. done.
Qed.

(** The catalog after a call of [Add]: untouched when an error is
    returned; otherwise one version row has been appended, referring
    either to the row found for the checksum or to the row inserted
    for it. *)
Lemma Add_catalog fs env path info version w :
  let r := Add fs env path info version w in
  (fst r ≠ None ∧ sqlite (snd r) = sqlite w)
  ∨ (fst r = None
     ∧ ∃ check id d,
         Checksum fs path w = (check, None)
         ∧ ((d = sqlite w ∧ id ≠ 0%Z
             ∧ ∃ f, f ∈ tbl_Files (sqlite w) ∧ file_id f = id
                    ∧ checksum f = check)
            ∨ (d = mkDatabase (tbl_Files (sqlite w) ++ [mkFilesRow id check])
                     (tbl_Versions (sqlite w)) (tbl_VersionsFts (sqlite w))
               ∧ (check ∉ map checksum (tbl_Files (sqlite w)))
               ∧ id = next_rowid (map file_id (tbl_Files (sqlite w)))))
         ∧ sqlite (snd r) =
           insertVersionStmt (now env) (filepath_ToSlash path) info
             (EncodeMetaphone info) version id d).
Proof.
  unfold Add. destruct (is_nil (db fs)); [by left|].
  destruct (Checksum fs path w) as [check [e|]] eqn:Hsum; [by left|].
  unfold addVersion. destruct (stmt_error fs); [by left|].
  destruct (Z.eqb_spec (hd 0%Z (queryIDStmt (sqlite w) check)) 0) as [Hzero|Hid].
  - destruct (ensureDirectory _ 448 w) as [[e|] w0] eqn:Hdir;
      apply ensureDirectory_result in Hdir as [Hdir _]; [left; by rewrite <- Hdir|].
    destruct (copyFile _ path _ _ false w0) as [[e|] w1] eqn:Hcopy;
      apply copyFile_result_sqlite in Hcopy; [left; simpl; by rewrite Hcopy|].
    destruct (insertFileStmt check (sqlite w1)) as [[id [e|]] d] eqn:Hins.
    + left. simpl. split; [done|]. unfold insertFileStmt in Hins.
      destruct (existsb _ _); [|done]. injection Hins as _ _ <-. congruence.
    + right. split; [done|]. rewrite Hcopy, Hdir in Hins.
      apply insertFileStmt_inv in Hins as (Hnew & -> & ->).
      eexists check, _, _. split; [done|]. split; [|done]. by right.
  - right. split; [done|].
    destruct (hd_filter_elem_of _ _ _ _ eq_refl Hid) as (f & Hf & Hck & Hfid).
    apply String.eqb_eq in Hck.
    eexists check, _, (sqlite w). split; [done|]. split; [|done].
    left. split; [done|]. split; [done|]. by exists f.
Qed.

(** The row a call of [Add] that returns no error has appended, and
    the [Files] row it refers to. *)
Lemma Add_appends_one_row fs env path info version w w' :
  Add fs env path info version w = (None, w') →
  ∃ check f,
    Checksum fs path w = (check, None)
    ∧ checksum f = check
    ∧ f ∈ tbl_Files (sqlite w')
    ∧ tbl_Versions (sqlite w') =
      tbl_Versions (sqlite w) ++
      [mkVersionsRow (next_rowid (map version_id (tbl_Versions (sqlite w))))
         (filepath_ToSlash path) info (EncodeMetaphone info) version (now env)
         (file_id f)].
Proof.
  intros Hadd. pose proof (Add_catalog fs env path info version w) as Hcat.
  rewrite Hadd in Hcat. simpl in Hcat.
  destruct Hcat as [[? _]|(_ & check & id & d & Hsum & Hd & ->)]; [done|].
  destruct Hd as [(-> & _ & f & Hf & <- & Hck)|(-> & _ & _)].
  - by exists check, f.
  - exists check, (mkFilesRow id check). simpl. repeat split; auto.
    apply elem_of_app. right. apply list_elem_of_here.
Qed.

(** X1. A call of [Add] that returns no error has appended exactly
    one version row to the catalog: its identity is the next rowid,
    and it carries the path with slashes, the info text, the phonetic
    code of the info text, the version tag, the current timestamp and
    the identity of a [Files] row that holds the checksum of the
    file. The [Files] table is unchanged or has grown by that one
    row, and the full-text table is untouched. *)
Theorem Add_records_version fs env path info version w w' :
  Add fs env path info version w = (None, w') →
  ∃ check f,
    Checksum fs path w = (check, None)
    ∧ checksum f = check
    ∧ f ∈ tbl_Files (sqlite w')
    ∧ (tbl_Files (sqlite w') = tbl_Files (sqlite w)
       ∨ tbl_Files (sqlite w') = tbl_Files (sqlite w) ++ [f])
    ∧ tbl_Versions (sqlite w') =
      tbl_Versions (sqlite w) ++
      [mkVersionsRow (next_rowid (map version_id (tbl_Versions (sqlite w))))
         (filepath_ToSlash path) info (EncodeMetaphone info) version (now env)
         (file_id f)]
    ∧ tbl_VersionsFts (sqlite w') = tbl_VersionsFts (sqlite w).
Proof.
  intros Hadd. pose proof (Add_catalog fs env path info version w) as Hcat.
  rewrite Hadd in Hcat. simpl in Hcat.
  destruct Hcat as [[? _]|(_ & check & id & d & Hsum & Hd & ->)]; [done|].
  destruct Hd as [(-> & _ & f & Hf & <- & Hck)|(-> & _ & _)].
  - exists check, f. simpl. repeat split; auto.
  - exists check, (mkFilesRow id check). simpl. repeat split; auto.
    apply elem_of_app. right. apply list_elem_of_here.
Qed.

(** X2. After a call of [Add] that returns no error, [Has] answers
    true for the path added. *)
Theorem Has_after_Add fs env path info version w w' :
  Add fs env path info version w = (None, w') →
  Has fs path w' = true.
Proof.
  intros Hadd.
  assert (db fs = db_open) as Hopen.
  { unfold Add, addVersion, stmt_error in Hadd.
    destruct (db fs); simpl in Hadd; [done|done|].
    by destruct (Checksum _ path w) as [? [?|]]. }
  pose proof (Add_catalog fs env path info version w) as Hcat.
  rewrite Hadd in Hcat. simpl in Hcat.
  destruct Hcat as [[? _]|(_ & check & id & d & _ & _ & Hsql)]; [done|].
  unfold Has, stmt_error, hasVersionStmt. rewrite Hopen, Hsql. simpl.
  rewrite existsb_app. simpl. by rewrite String.eqb_refl, orb_true_r.
Qed.

(** X3. Whatever it returns, [Add] only appends to the catalog: the
    rows of [Files] and of [Versions] before the call are the first
    rows after it, unchanged, and the full-text table is the same.
    This holds along every sequence of calls. *)
Theorem catalog_append_only fs calls w :
  tbl_Files (sqlite w) `prefix_of` tbl_Files (sqlite (add_all fs calls w))
  ∧ tbl_Versions (sqlite w) `prefix_of` tbl_Versions (sqlite (add_all fs calls w))
  ∧ tbl_VersionsFts (sqlite (add_all fs calls w)) = tbl_VersionsFts (sqlite w).
Proof.
  revert w. induction calls as [|c calls IH]; intros w; [done|].
  simpl. destruct (IH (snd (Add fs (call_env c) (call_path c) (call_info c)
                                (call_version c) w))) as (HF & HV & HT).
  pose proof (Add_catalog fs (call_env c) (call_path c) (call_info c)
                (call_version c) w) as Hcat. simpl in Hcat.
  destruct Hcat as [[_ Hsame]|(_ & check & id & d & _ & Hd & Hsql)].
  - by rewrite Hsame in HF, HV, HT.
  - rewrite Hsql in HF, HV, HT. simpl in *.
    destruct Hd as [(-> & _)|(-> & _)]; simpl in *.
    + split; [done|]. split; [|done].
      etrans; [|exact HV]. by apply prefix_app_r.
    + split; [etrans; [|exact HF]; by apply prefix_app_r|].
      split; [|done]. etrans; [|exact HV]. by apply prefix_app_r.
Qed.

Lemma Add_keeps_references fs env path info version w :
  references_resolve (sqlite w) →
  references_resolve (sqlite (snd (Add fs env path info version w))).
Proof.
  intros Href. pose proof (Add_catalog fs env path info version w) as Hcat.
  simpl in Hcat.
  destruct Hcat as [[_ ->]|(_ & check & id & d & _ & Hd & ->)]; [done|].
  intros v Hv. simpl in Hv. apply elem_of_app in Hv.
  destruct Hd as [(-> & _ & f & Hf & Hid & _)|(-> & _ & _)]; simpl in *.
  - destruct Hv as [Hv|Hv%list_elem_of_singleton]; [by apply Href|].
    subst v. by exists f.
  - destruct Hv as [Hv|Hv%list_elem_of_singleton].
    + destruct (Href v Hv) as (f & Hf & Hid). exists f.
      split; [|done]. apply elem_of_app. by left.
    + subst v. exists (mkFilesRow id check). split; [|done].
      apply elem_of_app. right. apply list_elem_of_here.
Qed.

(** X4. [Add] keeps the references of the catalog resolved, although
    SQLite does not enforce the foreign key: if every version row
    refers to a [Files] row before a sequence of calls, so it does
    after it, and every version row then shows in the join that
    [Get], [Versions] and [SimpleSearch] read. This holds in
    particular from the empty catalog on. *)
Theorem references_stay_resolved fs calls w :
  references_resolve (sqlite w) →
  let d := sqlite (add_all fs calls w) in
  references_resolve d
  ∧ ∀ v, v ∈ tbl_Versions d →
      ∃ c, mkJoinedRow v c ∈ inner_join (tbl_Versions d) (tbl_Files d).
Proof.
  intros Href d.
  assert (references_resolve d) as Hd.
  { subst d. revert w Href. induction calls as [|c calls IH]; intros w Href;
      [done|].
    simpl. apply IH. by apply Add_keeps_references. }
  split; [done|]. intros v Hv. destruct (Hd v Hv) as (f & Hf & Hid).
  exists (checksum f). apply inner_join_elem_of. split; [done|]. by exists f.
Qed.

Lemma NoDup_snoc_fresh (ids : list Z) :
  NoDup ids → NoDup (ids ++ [next_rowid ids]).
Proof.
  intros Hids. apply NoDup_app. split; [done|]. split; [|apply NoDup_singleton].
  intros i Hi ->%list_elem_of_singleton. apply next_rowid_gt in Hi. lia.
Qed.

Lemma Add_keeps_unique_keys fs env path info version w :
  unique_keys (sqlite w) →
  unique_keys (sqlite (snd (Add fs env path info version w))).
Proof.
  intros [HF HV]. pose proof (Add_catalog fs env path info version w) as Hcat.
  simpl in Hcat.
  destruct Hcat as [[_ ->]|(_ & check & id & d & _ & Hd & ->)]; [done|].
  unfold unique_keys.
  destruct Hd as [(-> & _)|(-> & _ & ->)]; simpl;
    rewrite ?map_app; simpl; split; auto using NoDup_snoc_fresh.
Qed.

(** X5. The identities stay keys: if no two rows of [Files] and no
    two rows of [Versions] share an identity before a sequence of
    [Add] calls, none do after it; and the version row a successful
    [Add] appends has an identity above all identities present. *)
Theorem identities_stay_unique fs :
  (∀ calls w, unique_keys (sqlite w) → unique_keys (sqlite (add_all fs calls w)))
  ∧ (∀ env path info version w w' row,
       Add fs env path info version w = (None, w') →
       last (tbl_Versions (sqlite w')) = Some row →
       ∀ v, v ∈ tbl_Versions (sqlite w) → (version_id v < version_id row)%Z).
Proof.
  split.
  - intros calls. induction calls as [|c calls IH]; intros w Hkeys; [done|].
    simpl. apply IH. by apply Add_keeps_unique_keys.
  - intros env path info version w w' row Hadd Hlast v Hv.
    pose proof (Add_catalog fs env path info version w) as Hcat.
    rewrite Hadd in Hcat. simpl in Hcat.
    destruct Hcat as [[? _]|(_ & check & id & d & _ & Hd & Hsql)]; [done|].
    rewrite Hsql in Hlast. simpl in Hlast. rewrite last_snoc in Hlast.
    injection Hlast as <-. simpl.
    assert (tbl_Versions d = tbl_Versions (sqlite w)) as ->.
    { by destruct Hd as [(-> & _)|(-> & _)]. }
    apply next_rowid_gt. apply list_elem_of_fmap. by exists v.
Qed.

(** ** What [Add] does to the disk *)

Lemma write_stream_frame o dst data w p :
  p ≠ dst → files (snd (write_stream o dst data w)) !! p = files w !! p.
Proof. intros Hp. destruct o; simpl; by rewrite lookup_insert_ne. Qed.

(** A copy changes no file but its destination. *)
Lemma copyFile_frame o src dst c r w p :
  p ≠ dst → files (snd (copyFile o src dst c r w)) !! p = files w !! p.
Proof.
  intros Hp. unfold copyFile. destruct (os_Stat w src); [|done].
  assert (files (os_Create dst w) !! p = files w !! p) as Hcreate.
  { simpl. by rewrite lookup_insert_ne. }
  destruct (files (os_Create dst w) !! src) as [data|]; [|done].
  destruct c; [destruct r|]; rewrite <- Hcreate.
  - destruct (snappy_decode data) as [plain ok].
    pose proof (write_stream_frame o dst plain (os_Create dst w) p Hp) as H.
    destruct (write_stream o dst plain (os_Create dst w)) as [[e|] w1];
      simpl in *; [done|]. by destruct ok.
  - by apply write_stream_frame.
  - by apply write_stream_frame.
Qed.

(** X6. [Add] changes no file on disk other than the blob file of the
    checksum, whatever it returns: in particular it never changes the
    file it adds, unless that file is itself the blob file. *)
Theorem Add_changes_only_the_blob fs env path info version w p :
  p ≠ blobFile fs (filepath_Base path) (fst (Checksum fs path w)) →
  files (snd (Add fs env path info version w)) !! p = files w !! p.
Proof.
  intros Hp. unfold Add. destruct (is_nil (db fs)); [done|].
  destruct (Checksum fs path w) as [check [e|]]; [done|]. simpl in Hp.
  unfold addVersion. destruct (stmt_error fs); [done|].
  destruct (hd 0%Z (queryIDStmt (sqlite w) check) =? 0)%Z; [|done].
  destruct (ensureDirectory _ 448 w) as [[e|] w0] eqn:Hdir;
    apply ensureDirectory_result in Hdir as [_ Hdir]; simpl;
    [by rewrite Hdir|].
  unfold blobFile in Hp.
  pose proof (copyFile_frame (io_copy env) path
                (if flags_Has (Options fs) Compress
                 then localPath fs (filepath_Base path) check +:+ ".snappy"
                 else localPath fs (filepath_Base path) check)
                (flags_Has (Options fs) Compress) false w0 p Hp) as Hframe.
  destruct (copyFile _ path _ _ false w0) as [[e|] w1]; simpl in *.
  - rewrite lookup_delete_ne by done. by rewrite Hframe, Hdir.
  - destruct (insertFileStmt check (sqlite w1)) as [[id [e|]] d]; simpl;
      by rewrite Hframe, Hdir.
Qed.

(** X7. On an open store, [Add] of a path at which there is no
    regular file returns the error of the checksum, wrapped with the
    path, and changes neither the disk nor the catalog. *)
Theorem Add_of_missing_file fs env path info version w :
  db fs = db_open →
  files w !! path = None →
  ∃ cause,
    Add fs env path info version w =
    (Some (Errorf ("filestore checksum failed for " +:+ path) cause), w)
    ∧ is_io_error cause = true.
Proof.
  intros Hopen Hnone. unfold Add, Checksum. rewrite Hopen, Hnone. simpl.
  destruct (decide (path ∈ dirs w)); eexists; by split.
Qed.

(** X8. On an open store, when the checksum of the file has no row
    and the directory the blob is to be written into exists as a
    regular file, [Add] returns [ErrDirectoryIsFile], wrapped, without
    copying anything: disk and catalog are unchanged. *)
Theorem Add_blocked_by_file fs env path info version w check blocker :
  db fs = db_open →
  Checksum fs path w = (check, None) →
  hd 0%Z (queryIDStmt (sqlite w) check) = 0%Z →
  files w !! filepath_Dir (localPath fs (filepath_Base path) check)
  = Some blocker →
  ∃ msg, Add fs env path info version w
         = (Some (Errorf msg ErrDirectoryIsFile), w).
Proof.
  intros Hopen Hsum Hid Hfile.
  unfold Add, addVersion, stmt_error, ensureDirectory, os_Stat.
  rewrite Hopen, Hsum, Hid. simpl. rewrite Hfile. by eexists.
Qed.

(** ** Reading the history *)

Lemma ltb_irrefl (s : string) : String.ltb s s = false.
Proof. apply ltb_false_le. done. Qed.

Lemma ltb_le_absurd (a b : string) :
  String.ltb a b = true → String.le b a → False.
Proof. intros Hlt Hle%ltb_false_le. congruence. Qed.

(** The first row of a result ordered newest first is at least as
    recent as every row selected. *)
Lemma first_row_is_latest (rows : list JoinedRow) (row : JoinedRow) :
  sql_limit 1 (order_by date_desc rows) = [row] →
  row ∈ rows ∧ ∀ other, other ∈ rows → String.le (j_date other) (j_date row).
Proof.
  intros Hfirst. pose proof (order_by_date_desc rows) as Hsorted.
  assert (∃ rest, order_by date_desc rows = row :: rest) as [rest Horder].
  { unfold sql_limit in Hfirst. simpl in Hfirst.
    destruct (order_by date_desc rows) as [|r rest]; [done|].
    simpl in Hfirst. injection Hfirst as ->. by exists rest. }
  rewrite Horder in Hsorted. apply StronglySorted_inv in Hsorted as [_ Hall].
  split.
  - apply (order_by_elem_of date_desc). rewrite Horder. apply list_elem_of_here.
  - intros other Hother. apply (order_by_elem_of date_desc) in Hother.
    rewrite Horder in Hother. apply elem_of_cons in Hother as [->|Hother];
      [done|].
    rewrite Forall_forall in Hall. by apply Hall.
Qed.

(** X9. On an open store, the version [Get] returns stands for a row
    of the catalog recorded for the path asked: it has the identity,
    info, phonetic code and version tag of that row, the slash path as
    its path, the base name of the path as its name, the decoded date
    of the row, the checksum of the [Files] row referred to, and the
    blob location root/checksum/name; and no row recorded for the path
    carries a later stored date. *)
Theorem Get_returns_a_latest_version fs path w v :
  db fs = db_open →
  Get fs path w = (v, None) →
  ∃ row,
    row ∈ inner_join (tbl_Versions (sqlite w)) (tbl_Files (sqlite w))
    ∧ v_path (j_version row) = filepath_ToSlash path
    ∧ v = FileVersion.mk (version_id (j_version row)) (filepath_Base path)
            (filepath_ToSlash path)
            (Root fs +:+ j_checksum row +:+ "/" +:+ filepath_Base path)
            (v_info (j_version row)) (v_fuzzy (j_version row))
            (v_version (j_version row)) (FileVersion.From v) (j_checksum row)
    ∧ ParseDBDate (v_date (j_version row)) = Some (FileVersion.From v)
    ∧ ∀ other,
        other ∈ inner_join (tbl_Versions (sqlite w)) (tbl_Files (sqlite w)) →
        v_path (j_version other) = filepath_ToSlash path →
        String.le (j_date other) (j_date row).
Proof.
  intros Hopen. unfold Get, stmt_error. rewrite Hopen. simpl.
  unfold getVersionStmt, select_joined.
  destruct (limit_1_cases
              (order_by date_desc
                 (List.filter (path_is (filepath_ToSlash path))
                    (inner_join (tbl_Versions (sqlite w))
                       (tbl_Files (sqlite w)))))) as [Hl|[row Hl]];
    rewrite Hl; [done|].
  apply first_row_is_latest in Hl as [Hrow Hlatest].
  apply list_elem_of_In, filter_In in Hrow as [Hrow Hpath].
  apply String.eqb_eq in Hpath.
  destruct (ParseDBDate (v_date (j_version row))) as [from|] eqn:Hdate; [|done].
  intros [= <-]. exists row. simpl.
  split; [by apply list_elem_of_In|]. split; [done|].
  split; [by rewrite Hpath|]. split; [done|].
  intros other Hother Hp. apply Hlatest.
  apply list_elem_of_In, filter_In. split; [by apply list_elem_of_In|].
  by apply String.eqb_eq.
Qed.

Lemma join_row_checksum (vs : list VersionsRow) (fl : list FilesRow) r f :
  NoDup (map file_id fl) →
  r ∈ inner_join vs fl → f ∈ fl → file_id f = v_file (j_version r) →
  j_checksum r = checksum f.
Proof.
  intros Hnodup Hr Hf Hid.
  apply inner_join_elem_of in Hr as (_ & g & Hg & Hgid & ->).
  f_equal. apply list_elem_of_lookup in Hf as [i Hi].
  apply list_elem_of_lookup in Hg as [j Hj].
  assert (i = j) as ->.
  { eapply NoDup_lookup; [exact Hnodup| |].
    - by rewrite list_lookup_fmap, Hi.
    - rewrite list_lookup_fmap, Hj. simpl. by rewrite Hgid, Hid. }
  congruence.
Qed.

(** [Get] of a path answers the last version row of the catalog when
    that row is recorded for the path and every other row of the path
    carries an earlier date. *)
Lemma Get_newest_row fs path w (old : list VersionsRow) new f t :
  db fs = db_open →
  NoDup (map file_id (tbl_Files (sqlite w))) →
  tbl_Versions (sqlite w) = old ++ [new] →
  v_path new = filepath_ToSlash path →
  f ∈ tbl_Files (sqlite w) → file_id f = v_file new →
  ParseDBDate (v_date new) = Some t →
  (∀ v, v ∈ old → v_path v = filepath_ToSlash path →
     String.ltb (v_date v) (v_date new) = true) →
  Get fs path w =
  (FileVersion.mk (version_id new) (filepath_Base path) (filepath_ToSlash path)
     (localPath fs (filepath_Base path) (checksum f)) (v_info new) (v_fuzzy new)
     (v_version new) t (checksum f),
   None).
Proof.
  intros Hopen HF HV Hpathnew Hf Hfid Hparse Holder.
  set (joined := inner_join (tbl_Versions (sqlite w)) (tbl_Files (sqlite w))).
  assert (mkJoinedRow new (checksum f) ∈ joined) as Hnew.
  { apply inner_join_elem_of. simpl. split.
    - rewrite HV. apply elem_of_app. right. apply list_elem_of_here.
    - by exists f. }
  assert (mkJoinedRow new (checksum f)
          ∈ List.filter (path_is (filepath_ToSlash path)) joined) as Hkept.
  { apply list_elem_of_In, filter_In.
    split; [by apply list_elem_of_In|].
    unfold path_is. simpl. rewrite Hpathnew. apply String.eqb_refl. }
  unfold Get, stmt_error. rewrite Hopen. simpl.
  unfold getVersionStmt, select_joined. fold joined.
  destruct (limit_1_cases
              (order_by date_desc
                 (List.filter (path_is (filepath_ToSlash path)) joined)))
    as [Hl|[row Hl]]; rewrite Hl.
  - exfalso. unfold sql_limit in Hl. simpl in Hl.
    pose proof (proj2 (order_by_elem_of date_desc _ _) Hkept) as Hin.
    destruct (order_by date_desc _) as [|r rest]; [by apply elem_of_nil in Hin|].
    done.
  - apply first_row_is_latest in Hl as [Hrow Hlatest].
    assert (String.le (v_date new) (j_date row)) as Hle
      by apply (Hlatest _ Hkept).
    apply list_elem_of_In, filter_In in Hrow as [Hrow Hpath].
    apply list_elem_of_In in Hrow. apply String.eqb_eq in Hpath.
    assert (j_version row = new) as Hversion.
    { pose proof Hrow as Hv. apply inner_join_elem_of in Hv as [Hv _].
      rewrite HV in Hv. apply elem_of_app in Hv as [Hv|Hv%list_elem_of_singleton];
        [|done].
      exfalso. eapply ltb_le_absurd; [by apply (Holder _ Hv)|exact Hle]. }
    assert (j_checksum row = checksum f) as Hchecksum.
    { apply (join_row_checksum _ _ _ _ HF Hrow Hf). by rewrite Hversion. }
    destruct row as [r c]. simpl in *. subst r c. simpl.
    by rewrite Hparse, Hpathnew.
Qed.

(** X10. Insert then look up. On an open store whose identities are
    keys, after an [Add] that returns no error, at a timestamp that
    parses and is later (as text) than the stored date of every
    earlier version of the path, [Get] of the path returns the version
    just added: the next identity, the base name and the slash form of
    the path, the info text and its phonetic code, the version tag,
    the decoded timestamp, the checksum of the file and the blob
    location built from it. *)
Theorem Get_after_Add fs env path info version w w' t :
  db fs = db_open →
  unique_keys (sqlite w) →
  Add fs env path info version w = (None, w') →
  ParseDBDate (now env) = Some t →
  (∀ v, v ∈ tbl_Versions (sqlite w) → v_path v = filepath_ToSlash path →
     String.ltb (v_date v) (now env) = true) →
  ∃ check,
    Checksum fs path w = (check, None)
    ∧ Get fs path w' =
      (FileVersion.mk (next_rowid (map version_id (tbl_Versions (sqlite w))))
         (filepath_Base path) (filepath_ToSlash path)
         (localPath fs (filepath_Base path) check) info (EncodeMetaphone info)
         version t check,
       None).
Proof.
  intros Hopen Hkeys Hadd Hparse Holder.
  pose proof (Add_keeps_unique_keys fs env path info version w Hkeys) as [HF' _].
  rewrite Hadd in HF'. simpl in HF'.
  destruct (Add_appends_one_row _ _ _ _ _ _ _ Hadd)
    as (check & f & Hsum & Hck & Hf & HV).
  exists check. split; [done|]. rewrite <- Hck.
  by apply (Get_newest_row fs path w' _ _ f t Hopen HF' HV).
Qed.

(** X11. On an open store, [Has] answers false for a path exactly
    when [Get] fails for it with the error of an empty result,
    provided every version row refers to a [Files] row. *)
Theorem Has_agrees_with_Get fs path w :
  db fs = db_open →
  references_resolve (sqlite w) →
  Has fs path w = false ↔
  Get fs path w = (FileVersion.zero, Some (dbError sql_ErrNoRows)).
Proof.
  intros Hopen Href. unfold Has, Get, stmt_error. rewrite Hopen. simpl.
  unfold hasVersionStmt, getVersionStmt, select_joined.
  set (slash := filepath_ToSlash path).
  set (joined := inner_join (tbl_Versions (sqlite w)) (tbl_Files (sqlite w))).
  split.
  - intros Hnone.
    assert (List.filter (path_is slash) joined = []) as ->; [|done].
    apply elem_of_nil_inv. intros r Hr.
    apply list_elem_of_In, filter_In in Hr as [Hr Hp].
    apply list_elem_of_In, inner_join_elem_of in Hr as [Hv _].
    apply not_true_iff_false in Hnone. apply Hnone, existsb_exists.
    exists (j_version r). split; [by apply list_elem_of_In|done].
  - intros Hget. apply not_true_iff_false. intros Hhas.
    apply existsb_exists in Hhas as (v & Hv%list_elem_of_In & Hp).
    destruct (Href v Hv) as (f & Hf & Hid).
    assert (mkJoinedRow v (checksum f)
            ∈ order_by date_desc (List.filter (path_is slash) joined)) as Hin.
    { apply order_by_elem_of, list_elem_of_In, filter_In.
      split; [|done]. apply list_elem_of_In, inner_join_elem_of.
      split; [done|]. by exists f. }
    destruct (order_by date_desc (List.filter (path_is slash) joined))
      as [|r rest]; [by apply elem_of_nil in Hin|].
    unfold sql_limit in Hget. simpl in Hget.
    by destruct (ParseDBDate (v_date (j_version r))).
Qed.

Lemma versions_of_take fs rows vs n :
  versions_of fs rows vs → versions_of fs (take n rows) (take n vs).
Proof. apply Forall2_take. Qed.

Lemma sql_limit_versions_of fs rows vs limit :
  versions_of fs rows vs →
  versions_of fs (sql_limit limit rows) (sql_limit limit vs).
Proof.
  intros H. unfold sql_limit. destruct (limit <? 0)%Z; [done|].
  by apply versions_of_take.
Qed.

Lemma sql_limit_of_unlimited {A} (limit unlimited : Z) (rows : list A) :
  (unlimited < 0)%Z →
  sql_limit limit rows = sql_limit limit (sql_limit unlimited rows).
Proof.
  intros Hneg.
  assert (sql_limit unlimited rows = rows) as ->; [|done].
  unfold sql_limit. destruct (Z.ltb_spec unlimited 0); [done|lia].
Qed.

(** X12. The limit cuts the history, it does not reorder it. On an
    open store, when [Versions] (or [VersionsAfter]) without a bound,
    that is with a negative limit, returns a list, then with limit
    [n >= 0] it returns the first [n] elements of that list, and with
    any other negative limit the whole list. *)
Theorem limit_takes_a_prefix fs path after w all (unlimited limit : Z) :
  db fs = db_open → (unlimited < 0)%Z →
  (Versions fs path unlimited w = (mk_slice all, None) →
   Versions fs path limit w =
   (mk_slice (if (limit <? 0)%Z then all else take (Z.to_nat limit) all), None))
  ∧ (VersionsAfter fs path after unlimited w = (mk_slice all, None) →
     VersionsAfter fs path after limit w =
     (mk_slice (if (limit <? 0)%Z then all else take (Z.to_nat limit) all), None)).
Proof.
  intros Hopen Hneg. split.
  - rewrite !Versions_open by done. unfold getVersionsStmt, select_joined.
    intros Hall%getVersions_Some.
    rewrite (sql_limit_of_unlimited limit unlimited) by done.
    apply getVersions_Some. by apply (sql_limit_versions_of _ _ _ limit) in Hall.
  - rewrite !VersionsAfter_open by done.
    unfold getVersionsAfterStmt, select_joined.
    intros Hall%getVersions_Some.
    rewrite (sql_limit_of_unlimited limit unlimited) by done.
    apply getVersions_Some. by apply (sql_limit_versions_of _ _ _ limit) in Hall.
Qed.

(** X13. On an open store, the versions [VersionsAfter] returns stand,
    in order, for rows recorded for the path whose stored date is
    strictly greater, as text, than the date given in the format of
    [ToDBDate] (a row of exactly that date is left out); they come
    newest first, at most [limit] of them when the limit is not
    negative, each of them among the rows [Versions] reads without a
    bound; with a negative limit every such row is returned. *)
Theorem VersionsAfter_strictly_later fs path after limit w vs :
  db fs = db_open →
  VersionsAfter fs path after limit w = (mk_slice vs, None) →
  ∃ rows,
    versions_of fs rows vs
    ∧ newest_first rows
    ∧ ((0 ≤ limit)%Z → (Z.of_nat (length vs) ≤ limit)%Z)
    ∧ (∀ r, r ∈ rows →
         r ∈ getVersionsStmt (sqlite w) path (-1)
         ∧ v_path (j_version r) = path
         ∧ String.ltb (ToDBDate after) (j_date r) = true)
    ∧ ((limit < 0)%Z →
       ∀ r, r ∈ getVersionsStmt (sqlite w) path (-1) →
            String.ltb (ToDBDate after) (j_date r) = true → r ∈ rows).
Proof.
  intros Hopen Hvs. rewrite VersionsAfter_open in Hvs by done.
  apply getVersions_Some in Hvs.
  exists (getVersionsAfterStmt (sqlite w) path (ToDBDate after) limit).
  split; [done|]. split; [|split; [|split]].
  - apply sql_limit_StronglySorted, order_by_date_desc.
  - intros Hlimit. rewrite (versions_of_length _ _ _ Hvs).
    by apply select_joined_length.
  - intros r Hr. apply select_joined_elem_of in Hr as [Hr Hw].
    apply andb_true_iff in Hw as [Hp Hlater].
    split; [|split; [by apply String.eqb_eq|done]].
    unfold getVersionsStmt. by apply select_joined_unlimited.
  - intros Hneg r Hr Hlater. unfold getVersionsStmt in Hr.
    apply select_joined_unlimited in Hr as [Hr Hp]; [|done].
    unfold getVersionsAfterStmt. apply select_joined_unlimited; [done|].
    split; [done|]. by apply andb_true_iff.
Qed.

(** ** Copying files *)

Lemma copyFile_written_content src dst c w w1 data :
  files w !! src = Some data → src ≠ dst →
  copyFile copy_completes src dst c false w = (None, w1) →
  files w1 = <[dst := if c then snappy_encode data else data]> (files w).
Proof.
  intros Hsrc Hne. unfold copyFile, os_Stat. rewrite Hsrc. simpl.
  rewrite lookup_insert_ne by done. rewrite Hsrc.
  destruct c; intros [= <-]; simpl; apply insert_insert_eq.
Qed.

Lemma copyFile_store src dst c w data :
  files w !! src = Some data → src ≠ dst →
  copyFile copy_completes src dst c false w =
  (None,
   set_files (<[dst := if c then snappy_encode data else data]>)
     (os_Create dst w)).
Proof.
  intros Hsrc Hne. unfold copyFile, os_Stat. rewrite Hsrc. simpl.
  rewrite lookup_insert_ne by done. rewrite Hsrc. by destruct c.
Qed.

Lemma copyFile_restore src dst c w stored plain :
  files w !! src = Some stored → src ≠ dst →
  (c = true → snappy_decode stored = (plain, true)) →
  (c = false → plain = stored) →
  copyFile copy_completes src dst c true w =
  (None, set_files (<[dst := plain]>) (os_Create dst w)).
Proof.
  intros Hsrc Hne Hpacked Hplain. unfold copyFile, os_Stat. rewrite Hsrc. simpl.
  rewrite lookup_insert_ne by done. rewrite Hsrc.
  destruct c; [by rewrite Hpacked|by rewrite Hplain].
Qed.

(** X14. Copy and restore are inverse at the level of [copyFile]:
    when the disk does not fail, a file copied to a second path
    (compressing or not) and copied from there to a third path with
    the restore flag (and the same compression flag) arrives with its
    bytes unchanged, both calls returning no error - provided, under
    compression, that the Snappy reader yields back what the Snappy
    writer was given. The source must differ from the second path,
    and the second from the third. *)
Theorem copyFile_round_trip (c : bool) src packed out w data :
  (c = true → ∀ b, snappy_decode (snappy_encode b) = (b, true)) →
  files w !! src = Some data →
  src ≠ packed → packed ≠ out →
  ∃ w1 w2,
    copyFile copy_completes src packed c false w = (None, w1)
    ∧ copyFile copy_completes packed out c true w1 = (None, w2)
    ∧ files w2 !! out = Some data
    ∧ files w2 !! packed = files w1 !! packed.
Proof.
  intros Hcodec Hsrc Hne1 Hne2.
  eexists _, _. split; [by apply copyFile_store|].
  split; [|split].
  - apply (copyFile_restore _ _ _ _
             (if c then snappy_encode data else data) data);
      [apply lookup_insert_eq|done| |].
    + intros ->. by apply Hcodec.
    + by intros ->.
  - simpl. apply lookup_insert_eq.
  - simpl. by rewrite !(lookup_insert_ne _ out packed).
Qed.

(** X15. A file copied onto itself is lost: the destination is
    created, hence emptied, before the source is read, so [copyFile]
    with equal source and destination returns no error and leaves the
    file with the copy of an empty input (no bytes at all without
    compression). *)
Theorem copyFile_onto_itself (c : bool) p w data :
  files w !! p = Some data →
  ∃ w1,
    copyFile copy_completes p p c false w = (None, w1)
    ∧ files w1 !! p = Some (if c then snappy_encode [] else []).
Proof.
  intros Hp. unfold copyFile, os_Stat, write_stream. rewrite Hp. simpl.
  rewrite lookup_insert_eq.
  destruct c; eexists; (split; [done|]); simpl; apply lookup_insert_eq.
Qed.

(** X16. When nothing exists at the source path, [copyFile] returns
    the error of opening it and changes nothing: the destination is
    neither created nor emptied. *)
Theorem copyFile_without_source o src dst c r w :
  files w !! src = None → src ∉ dirs w →
  copyFile o src dst c r w = (Some (PathError "open" src ENOENT), w).
Proof.
  intros Hfile Hdir. unfold copyFile, os_Stat. rewrite Hfile.
  by destruct (decide (src ∈ dirs w)).
Qed.


(** ** Restoring *)

Lemma asDirectoryPath_cases path :
  asDirectoryPath path = path ∨ asDirectoryPath path = path +:+ "/".
Proof.
  unfold asDirectoryPath.
  destruct (String.eqb_spec path "") as [->|_]; [by left|].
  destruct (utf8_DecodeLastRuneInString path) as [r width].
  destruct (_ && _); [by right|by left].
Qed.

(** X18. [Restore] reads the blob at root/checksum/name and writes
    the file name in the destination directory; it changes neither
    the catalog nor the directories nor any file but that one. When
    nothing exists at the blob location it returns the error of
    opening it and changes nothing at all. *)
Theorem Restore_frame fs o v dst w :
  let src := Root fs +:+ FileVersion.Checksum v +:+ "/" +:+ FileVersion.Name v in
  let target := asDirectoryPath dst +:+ FileVersion.Name v in
  let w' := snd (Restore fs o v dst w) in
  sqlite w' = sqlite w
  ∧ dirs w' = dirs w
  ∧ (∀ p, p ≠ target → files w' !! p = files w !! p)
  ∧ (os_Stat w src = None →
     Restore fs o v dst w = (Some (PathError "open" src ENOENT), w)).
Proof.
  intros src target w'. subst w'. unfold Restore.
  change (localPath fs (FileVersion.Name v) (FileVersion.Checksum v)) with src.
  fold target. split; [apply copyFile_sqlite|]. split; [|split].
  - destruct (copyFile o src target (flags_Has (Options fs) Compress) true w)
      as [e w1] eqn:Hcopy. simpl. by eapply copyFile_dirs.
  - intros p Hp. by apply copyFile_frame.
  - intros Hstat. unfold copyFile. by rewrite Hstat.
Qed.

(** X19. [RestoreAtSource] passes the path of the version as the
    destination directory: the file it writes is the name of the
    version inside that path (path/name), never the path itself, so
    the file at the path the version was added from keeps its
    bytes. *)
Theorem RestoreAtSource_target fs o v w :
  FileVersion.Name v ≠ "" →
  let path := FileVersion.Path v in
  ∃ target,
    (target = path +:+ FileVersion.Name v
     ∨ target = (path +:+ "/") +:+ FileVersion.Name v)
    ∧ target ≠ path
    ∧ RestoreAtSource fs o v w =
      copyFile o (localPath fs (FileVersion.Name v) (FileVersion.Checksum v))
        target (flags_Has (Options fs) Compress) true w
    ∧ files (snd (RestoreAtSource fs o v w)) !! path = files w !! path.
Proof.
  intros Hname path.
  exists (asDirectoryPath path +:+ FileVersion.Name v).
  assert (asDirectoryPath path +:+ FileVersion.Name v ≠ path) as Hne.
  { destruct (asDirectoryPath_cases path) as [->| ->].
    - by apply append_neq.
    - rewrite append_assoc. apply append_neq. done. }
  split; [|split; [done|split; [done|]]].
  - destruct (asDirectoryPath_cases path) as [->| ->]; auto.
  - unfold RestoreAtSource, Restore. fold path. apply copyFile_frame.
    intros Heq. by apply Hne.
Qed.

(** ** The life cycle *)

(** X20. [Close] does not bring the store back to the state before
    [Open]: the handle stays set. On a store closed after having been
    open, [Get], [Versions] and [VersionsAfter] return the error of
    the closed handle wrapped as a DB error, [SimpleSearch], [Search]
    and [FuzzySearch] return it as it is, [Add] of an existing file
    returns it wrapped and changes nothing, [Has] answers false - none
    of them returns [ErrNotOpen] - and [Open] opens the store
    again. *)
Theorem operations_after_Close fs env w path info version after limit words
    term data :
  db fs = db_open →
  let closed := snd (Close fs) in
  fst (Close fs) = None
  ∧ Dir closed = Dir fs ∧ Options closed = Options fs
  ∧ Get closed path w = (FileVersion.zero, Some (dbError sql_ErrClosed))
  ∧ Versions closed path limit w = (nil_slice, Some (dbError sql_ErrClosed))
  ∧ VersionsAfter closed path after limit w
    = (nil_slice, Some (dbError sql_ErrClosed))
  ∧ SimpleSearch closed words limit w = (nil_slice, Some sql_ErrClosed)
  ∧ Search closed term limit w = (nil_slice, Some sql_ErrClosed)
  ∧ FuzzySearch closed term limit w = (nil_slice, Some sql_ErrClosed)
  ∧ Has closed path w = false
  ∧ (files w !! path = Some data →
     Add closed env path info version w = (Some (dbError sql_ErrClosed), w))
  ∧ (files w !! Root fs = None →
     fst (fst (Open closed w)) = None ∧ snd (fst (Open closed w)) = fs).
Proof.
  intros Hopen closed. subst closed. unfold Close. rewrite Hopen. simpl.
  repeat split; try reflexivity.
  - intros Hdata. unfold Add, Checksum, addVersion. simpl. by rewrite Hdata.
  - unfold Open, ensureDirectory, os_Stat.
    change (Root (mkFilestore (Dir fs) (Options fs) db_closed)) with (Root fs).
    rewrite H. by destruct (decide (Root fs ∈ dirs w)).
  - unfold Open, ensureDirectory, os_Stat.
    change (Root (mkFilestore (Dir fs) (Options fs) db_closed)) with (Root fs).
    rewrite H. destruct fs as [d o h]. simpl in *. subst h.
    by destruct (decide (_ ∈ dirs w)).
Qed.

(** ** Directory paths *)

Lemma append_not_empty (s : string) (c : ascii) :
  String.eqb (s +:+ String c "") "" = false.
Proof. by destruct s. Qed.

(** X21. [asDirectoryPath] leaves the empty path empty. For a path
    whose last byte is an ASCII character - which
    [utf8.DecodeLastRuneInString] decodes to that character, with
    width one - it appends a separator unless the path ends in one:
    the result ends in a separator, and applying the function again
    changes nothing. Hence the root of a store whose directory is
    empty or ends in an ASCII character ends in a separator. *)
Theorem asDirectoryPath_ends_in_separator :
  (∀ s c, (nat_of_ascii c < 128)%nat →
     utf8_DecodeLastRuneInString (s +:+ String c "")
     = (Z.of_nat (nat_of_ascii c), 1%Z)) →
  asDirectoryPath "" = ""
  ∧ (∀ s c, (nat_of_ascii c < 128)%nat →
       let path := s +:+ String c "" in
       asDirectoryPath path = (if Ascii.eqb c "/" then path else path +:+ "/")
       ∧ (∃ p, asDirectoryPath path = p +:+ "/")
       ∧ asDirectoryPath (asDirectoryPath path) = asDirectoryPath path)
  ∧ (∀ fs, (Dir fs = ""
            ∨ ∃ s c, (nat_of_ascii c < 128)%nat ∧ Dir fs = s +:+ String c "") →
       ∃ p, Root fs = p +:+ "/").
Proof.
  intros Hdecode. split; [done|].
  assert (∀ s c, (nat_of_ascii c < 128)%nat →
            asDirectoryPath (s +:+ String c "") =
            (if Ascii.eqb c "/" then s +:+ String c ""
             else (s +:+ String c "") +:+ "/")) as Hstep.
  { intros s c Hc. unfold asDirectoryPath.
    rewrite append_not_empty, (Hdecode s c Hc). simpl.
    destruct (Z.eqb_spec (Z.of_nat (nat_of_ascii c)) RuneError) as [Hr|_].
    { unfold RuneError in Hr. lia. }
    simpl. destruct (Ascii.eqb_spec c "/") as [->|Hne]; [done|].
    destruct (Z.eqb_spec (Z.of_nat (nat_of_ascii c))
                (Z.of_nat (nat_of_ascii Separator))) as [Heq|_]; [|done].
    exfalso. apply Hne. apply Nat2Z.inj in Heq.
    rewrite <- (ascii_nat_embedding c), Heq. apply ascii_nat_embedding. }
  assert (∀ s c, (nat_of_ascii c < 128)%nat →
            ∃ p, asDirectoryPath (s +:+ String c "") = p +:+ "/") as Hends.
  { intros s c Hc. rewrite Hstep by done.
    destruct (Ascii.eqb_spec c "/") as [->|_]; eauto. }
  split.
  - intros s c Hc path. subst path. split; [by apply Hstep|].
    split; [by apply Hends|]. rewrite (Hstep s c Hc).
    destruct (Ascii.eqb_spec c "/") as [->|Hne].
    + by rewrite Hstep.
    + by rewrite (Hstep (s +:+ String c "") "/"%char) by (vm_compute; lia).
  - intros fs [Hdir|(s & c & Hc & Hdir)]; unfold Root; rewrite Hdir.
    + by exists "versions".
    + rewrite append_not_empty. by apply Hends.
Qed.

(** ** Search terms *)

Lemma Replace_double_quotes_inj (a b : string) :
  Replace [(dquote, String dquote (String dquote ""))] a
  = Replace [(dquote, String dquote (String dquote ""))] b →
  a = b.
Proof.
  revert b. induction a as [|c a IH]; intros [|d b]; simpl.
  - done.
  - destruct (Ascii.eqb d dquote); simpl; discriminate.
  - destruct (Ascii.eqb c dquote); simpl; discriminate.
  - destruct (Ascii.eqb_spec c dquote) as [->|Hc];
      destruct (Ascii.eqb_spec d dquote) as [->|Hd]; simpl.
    + intros [= H]. f_equal. by apply IH.
    + intros [= <- H]. done.
    + intros [= -> H]. done.
    + intros [= -> H]. f_equal. by apply IH.
Qed.

Lemma count_Replace_double_quotes (s : string) :
  count_occ ascii_dec
    (chars (Replace [(dquote, String dquote (String dquote ""))] s)) dquote
  = 2 * count_occ ascii_dec (chars s) dquote.
Proof.
  induction s as [|c s IH]; [done|]. cbn [Replace replacement].
  change (chars (String c s)) with (c :: chars s).
  destruct (Ascii.eqb_spec c dquote) as [->|Hc].
  - change (chars (String dquote (String dquote "") +:+ ?r))
      with (dquote :: dquote :: chars r).
    rewrite !count_occ_cons_eq by done. lia.
  - change (chars (String c ?r)) with (c :: chars r).
    rewrite !count_occ_cons_neq by done. exact IH.
Qed.

(** X22. [FTS5Escape] loses nothing and doubles every double quote:
    different terms have different escaped forms, the escaped form
    begins and ends with a double quote, and between these it
    contains twice as many double quotes as the term (and is the term
    itself when the term has none). *)
Theorem FTS5Escape_faithful :
  (∀ a b, FTS5Escape a = FTS5Escape b → a = b)
  ∧ (∀ term, ∃ inner,
       chars (FTS5Escape term) = dquote :: inner ++ [dquote]
       ∧ count_occ ascii_dec inner dquote
         = 2 * count_occ ascii_dec (chars term) dquote
       ∧ (count_occ ascii_dec (chars term) dquote = 0 → inner = chars term)).
Proof.
  split.
  - intros a b H. unfold FTS5Escape in H. apply (f_equal chars) in H.
    change (chars (String dquote ?x +:+ ?y)) with (dquote :: chars (x +:+ y)) in H.
    injection H as H. rewrite !chars_append in H.
    apply app_inj_tail in H as [H _].
    apply Replace_double_quotes_inj. by rewrite <- (text_chars _), H, text_chars.
  - intros term.
    exists (chars (Replace [(dquote, String dquote (String dquote ""))] term)).
    split; [|split].
    + unfold FTS5Escape.
      change (chars (String dquote ?x +:+ ?y)) with (dquote :: chars (x +:+ y)).
      by rewrite chars_append.
    + apply count_Replace_double_quotes.
    + intros Hnone. f_equal. induction term as [|c term IH]; [done|].
      simpl in *. destruct (Ascii.eqb_spec c dquote) as [->|Hc].
      * unfold chars in Hnone. simpl in Hnone.
        by destruct (ascii_dec dquote dquote).
      * f_equal. apply IH. unfold chars in *. simpl in Hnone.
        by destruct (ascii_dec c dquote).
Qed.

Lemma append_empty_r (s : string) : s +:+ "" = s.
Proof.
  induction s as [|c s IH]; [done|].
  change (String c (s +:+ "") = String c s). by f_equal.
Qed.

Lemma simple_term_rest (words : list string) :
  simple_term false words =
  match words with
  | [] => ""
  | _ =>
      " or " +:+
      strings_Join
        (flat_map (λ word, [buildTerm "info" word; buildTerm "version" word])
           words) " or "
  end.
Proof.
  induction words as [|word rest IH]; [done|].
  cbn [simple_term flat_map app strings_Join]. rewrite IH.
  destruct rest as [|next rest].
  - cbn [flat_map strings_Join]. by rewrite append_empty_r.
  - reflexivity.
Qed.

(** X23. The condition [SimpleSearch] puts after [where] is the two
    [buildTerm] texts of each word, on the info column and on the
    version column, in the order of the words, joined by [ or ]
    without a leading or trailing connective. It is the empty text
    exactly for the empty list of words, and then the statement
    cannot be prepared: on an open store [SimpleSearch] of no words
    returns an error and a nil slice. *)
Theorem SimpleSearch_condition (words : list string) :
  simple_term true words =
  strings_Join
    (flat_map (λ word, [buildTerm "info" word; buildTerm "version" word]) words)
    " or "
  ∧ (simple_term true words = "" ↔ words = [])
  ∧ ∀ fs limit w, db fs = db_open →
      ∃ err, SimpleSearch fs [] limit w = (nil_slice, Some err).
Proof.
  split; [|split].
  - destruct words as [|word rest]; [done|].
    cbn [simple_term flat_map app strings_Join]. rewrite simple_term_rest.
    destruct rest as [|next rest].
    + cbn [flat_map strings_Join]. by rewrite append_empty_r.
    + reflexivity.
  - split; [|by intros ->]. intros Hterm. apply (simple_term_empty true).
    rewrite Hterm. done.
  - intros fs limit w Hopen. unfold SimpleSearch, stmt_error. rewrite Hopen.
    by eexists.
Qed.

(** ** Checksums *)

Lemma hex_digits_of_byte (b : byte) :
  existsb (Ascii.eqb (hexdigit (N.shiftr (Byte.to_N b) 4))) hextable = true
  ∧ existsb (Ascii.eqb (hexdigit (N.land (Byte.to_N b) 15))) hextable = true.
Proof. destruct b; vm_compute; by split. Qed.

Lemma hex_EncodeToString_digits (src : bytes) :
  length (chars (hex_EncodeToString src)) = 2 * length src
  ∧ Forall (λ c, c ∈ hextable) (chars (hex_EncodeToString src)).
Proof.
  induction src as [|b src [IHlen IHall]]; [by split|].
  change (chars (hex_EncodeToString (b :: src)))
    with (hexdigit (N.shiftr (Byte.to_N b) 4)
          :: hexdigit (N.land (Byte.to_N b) 15)
          :: chars (hex_EncodeToString src)).
  split; [simpl; lia|].
  destruct (hex_digits_of_byte b) as [Hhigh Hlow].
  apply existsb_exists in Hhigh as (x & Hx & ->%Ascii.eqb_eq).
  apply existsb_exists in Hlow as (y & Hy & ->%Ascii.eqb_eq).
  constructor; [by apply list_elem_of_In|].
  constructor; [by apply list_elem_of_In|done].
Qed.

(** X24. The checksum [Checksum] returns for a file is written in
    lower-case hexadecimal digits only, two for each byte of the
    digest of its content; it contains no path separator, so it is a
    single element of the blob location. When no regular file exists
    at the path an error is returned instead. *)
Theorem Checksum_is_hexadecimal fs path w :
  match files w !! path with
  | Some data =>
      ∃ check,
        Checksum fs path w = (check, None)
        ∧ length (chars check) = 2 * length (blake2b_Sum512 data)
        ∧ Forall (λ c, c ∈ chars "0123456789abcdef") (chars check)
        ∧ Separator ∉ chars check
  | None => ∃ err, Checksum fs path w = ("", Some err)
  end.
Proof.
  unfold Checksum. destruct (files w !! path) as [data|].
  - eexists. split; [done|].
    destruct (hex_EncodeToString_digits (blake2b_Sum512 data)) as [Hlen Hall].
    split; [done|]. split; [done|].
    intros Hsep. rewrite Forall_forall in Hall. apply Hall in Hsep.
    apply list_elem_of_In in Hsep. vm_compute in Hsep.
    repeat (destruct Hsep as [Hsep|Hsep]; [discriminate|]). done.
  - destruct (decide (path ∈ dirs w)); by eexists.
Qed.

(** ** The row loop *)

(** X25. [getVersions] is all or nothing. When the date of every row
    of the result set parses, it returns no error and one version for
    each row, in the order of the rows, with the identity of its row,
    the base name of its path as name and the blob location
    root/checksum/name; otherwise it returns [ErrInvalidDate] and a
    nil slice, never a part of the versions. *)
Theorem getVersions_all_or_nothing fs rows :
  (Forall (λ r, is_Some (ParseDBDate (v_date (j_version r)))) rows ∧
   ∃ vs, getVersions fs rows = (mk_slice vs, None)
         ∧ length vs = length rows
         ∧ map FileVersion.ID vs = map (λ r, version_id (j_version r)) rows
         ∧ Forall (λ v, FileVersion.Name v = filepath_Base (FileVersion.Path v)
                        ∧ FileVersion.Local v =
                          Root fs +:+ FileVersion.Checksum v +:+ "/"
                          +:+ FileVersion.Name v) vs)
  ∨ (Exists (λ r, ParseDBDate (v_date (j_version r)) = None) rows
     ∧ getVersions fs rows = (nil_slice, Some ErrInvalidDate)).
Proof.
  rewrite getVersions_mapM.
  induction rows as [|row rows IH].
  - left. split; [done|]. by exists [].
  - cbn [mapM]. pose proof (eq_refl (fileVersion_of fs row)) as Hrow.
    unfold fileVersion_of at 2 in Hrow.
    destruct (ParseDBDate (v_date (j_version row))) as [from|] eqn:Hdate;
      rewrite Hrow; cbn.
    + destruct IH as [(Hall & vs & Hvs & Hlen & Hids & Hshape)|[Hbad Hvs]].
      * left. split; [constructor; [by rewrite Hdate|done]|].
        destruct (mapM (fileVersion_of fs) rows) as [vs'|]; [|done].
        injection Hvs as <-. eexists. split; [done|]. cbn.
        split; [by rewrite Hlen|]. split; [by rewrite Hids|].
        constructor; [done|done].
      * right. split; [by apply Exists_cons_tl|].
        by destruct (mapM (fileVersion_of fs) rows).
    + right. split; [by apply Exists_cons_hd|done].
Qed.

(** ** The blob *)

Lemma copyFile_success o src dst c w w1 data :
  files w !! src = Some data → src ≠ dst →
  copyFile o src dst c false w = (None, w1) →
  o = copy_completes
  ∧ files w1 = <[dst := if c then snappy_encode data else data]> (files w).
Proof.
  intros Hsrc Hne. unfold copyFile, os_Stat. rewrite Hsrc. simpl.
  rewrite lookup_insert_ne by done. rewrite Hsrc.
  destruct c; intros [-> ->]%write_stream_written; (split; [done|]); simpl;
    apply insert_insert_eq.
Qed.

(** X26. The blob holds the content. On an open store, after an [Add]
    that returns no error for a file whose checksum had no row, the
    blob file of that checksum (root/checksum/name, with the suffix
    .snappy under compression) holds the bytes of the file, as the
    Snappy writer emits them under compression and as they are
    otherwise - provided the file added is not that blob file
    itself. *)
Theorem Add_stores_the_content fs env path info version w w' data check :
  db fs = db_open →
  files w !! path = Some data →
  Checksum fs path w = (check, None) →
  check ∉ map checksum (tbl_Files (sqlite w)) →
  path ≠ blobFile fs (filepath_Base path) check →
  Add fs env path info version w = (None, w') →
  files w' !! blobFile fs (filepath_Base path) check =
  Some (if flags_Has (Options fs) Compress then snappy_encode data else data)
  ∧ files w' !! path = Some data.
Proof.
  intros Hopen Hdata Hsum Hnew Hne Hadd.
  apply (Add_new_steps _ _ _ _ _ check) in Hadd
    as (w0 & w1 & id & d & Hdir & Hcopy & Hins & ->); [|done..].
  apply ensureDirectory_result in Hdir as [_ Hdir].
  apply (copyFile_success _ _ _ _ _ _ data) in Hcopy as [_ Hcopy];
    [|by rewrite Hdir|done].
  simpl. rewrite Hcopy, Hdir. split; [apply lookup_insert_eq|].
  by rewrite lookup_insert_ne.
Qed.

(** X27. Add, look up, restore. On an open store without compression
    whose identities are keys, after an [Add] that returns no error
    for a file whose checksum had no row, at a timestamp that parses
    and is later (as text) than the stored date of every earlier
    version of the path, [Get] of the path returns a version and
    [Restore] of that version into any directory returns no error and
    writes the bytes of the file added under its base name into that
    directory - provided neither the file added nor the restored file
    is the blob file. *)
Theorem Add_Get_Restore_round_trip fs env path info version w w1 data check
    dst t :
  db fs = db_open →
  flags_Has (Options fs) Compress = false →
  unique_keys (sqlite w) →
  check ∉ map checksum (tbl_Files (sqlite w)) →
  files w !! path = Some data →
  Checksum fs path w = (check, None) →
  Add fs env path info version w = (None, w1) →
  ParseDBDate (now env) = Some t →
  (∀ v, v ∈ tbl_Versions (sqlite w) → v_path v = filepath_ToSlash path →
     String.ltb (v_date v) (now env) = true) →
  path ≠ localPath fs (filepath_Base path) check →
  asDirectoryPath dst +:+ filepath_Base path
  ≠ localPath fs (filepath_Base path) check →
  ∃ v w2,
    Get fs path w1 = (v, None)
    ∧ Restore fs copy_completes v dst w1 = (None, w2)
    ∧ files w2 !! (asDirectoryPath dst +:+ filepath_Base path) = Some data.
Proof.
  intros Hopen Hplain Hkeys Hnew Hdata Hsum Hadd Hparse Holder Hsrc Htarget.
  pose proof (Add_keeps_unique_keys fs env path info version w Hkeys) as [HF' _].
  rewrite Hadd in HF'. simpl in HF'.
  destruct (Add_appends_one_row _ _ _ _ _ _ _ Hadd)
    as (check' & f & Hsum' & Hck & Hf & HV).
  assert (check' = check) as -> by congruence.
  pose proof (Get_newest_row fs path w1 _ _ f t Hopen HF' HV eq_refl Hf eq_refl
                Hparse Holder) as HGet.
  rewrite Hck in HGet. simpl in HGet.
  destruct (restore_uncompressed_round_trip fs env path info version w w1 data
              check
              (FileVersion.mk
                 (next_rowid (map version_id (tbl_Versions (sqlite w))))
                 (filepath_Base path) (filepath_ToSlash path)
                 (localPath fs (filepath_Base path) check) info
                 (EncodeMetaphone info) version t check)
              dst Hopen Hplain Hnew Hdata Hsum Hadd Hsrc Htarget eq_refl eq_refl)
    as (w2 & HRestore & Hout).
  eexists _, w2. split; [exact HGet|]. split; [exact HRestore|exact Hout].
Qed.

End Filestore.

(** ** The properties on the sample stores *)

Lemma unknown_path_empty_history_witness :
  Versions Sample.Parse Sample.DecodeLastRune Store.opened "b.txt" 5
    Store.one_version = (mk_slice [], None)
  ∧ VersionsAfter Sample.Parse Sample.Format Sample.DecodeLastRune Store.opened
      "b.txt" 0%Z 5 Store.one_version = (mk_slice [], None)
  ∧ ∃ err, Get Sample.Parse Sample.DecodeLastRune Store.opened "b.txt"
             Store.one_version = (FileVersion.zero, Some err).
Proof.
  apply (unknown_path_empty_history Sample.Parse Sample.Format
           Sample.DecodeLastRune Store.opened Store.one_version "b.txt" 0%Z 5%Z).
  - reflexivity.
  - intros v Hv. apply list_elem_of_In in Hv. simpl in Hv.
    destruct Hv as [<-|[]]. discriminate.
Defined.

Lemma never_opened_store_witness :
  Get Sample.Parse Sample.DecodeLastRune Store.unopened "a.txt" Store.one_version
  = (FileVersion.zero, Some ErrNotOpen)
  ∧ Has Store.unopened "a.txt" Store.one_version = false.
Proof.
  pose proof (never_opened_store Sample.Sum512 Sample.encode Sample.decode
                Sample.Parse Sample.Format Sample.Encode Sample.Fields
                Sample.Dir Sample.DecodeLastRune Sample.fts_match
                Store.unopened (mkEnv "2021-08-21 10:30:05" copy_completes)
                copy_completes Store.one_version "a.txt" "greeting" "1.1" 0%Z
                5%Z ["greeting"] "greeting" Store.a_txt "out" eq_refl) as H.
  split; [apply H|]. apply H.
Defined.

(** Not every operation is refused before [Open]: on the never opened
    sample store [Restore] returns no error at all, and writes the
    restored file. *)
Lemma never_opened_restore_counterexample :
  db Store.unopened = db_nil
  ∧ fst (Restore Sample.encode Sample.decode Sample.DecodeLastRune Store.unopened
           copy_completes Store.a_txt "out" Store.one_version) = None
  ∧ files (snd (Restore Sample.encode Sample.decode Sample.DecodeLastRune
                  Store.unopened copy_completes Store.a_txt "out"
                  Store.one_version)) !! "out/a.txt" = Some Store.hello
  ∧ files Store.one_version !! "out/a.txt" = None.
Proof. repeat split; vm_compute; reflexivity. Qed.

Lemma malformed_date_is_an_error_witness :
  Get Sample.Parse Sample.DecodeLastRune Store.opened "a.txt" Store.corrupt
  = (FileVersion.zero, Some ErrInvalidDate)
  ∧ Versions Sample.Parse Sample.DecodeLastRune Store.opened "a.txt" 5
      Store.corrupt = (nil_slice, Some ErrInvalidDate)
  ∧ Search Sample.Parse Sample.DecodeLastRune Sample.fts_match Store.opened
      "greeting" 5 Store.corrupt = (nil_slice, Some ErrInvalidDate).
Proof.
  pose proof (malformed_date_is_an_error Sample.Parse Sample.Format
                Sample.DecodeLastRune Sample.fts_match Store.opened
                Store.corrupt (mkJoinedRow Store.corrupt_row Store.hello_sum)
                eq_refl eq_refl) as (HGet & HVersions & _ & _ & HSearch).
  split; [|split].
  - apply HGet. reflexivity.
  - apply HVersions. vm_compute. apply list_elem_of_here.
  - destruct (Sample.fts_match "greeting") as [m|] eqn:Hm; [|discriminate].
    apply (HSearch "greeting" 5%Z m Hm).
    injection Hm as <-. vm_compute. apply list_elem_of_here.
Defined.

Lemma history_newest_first_witness :
  (Get Sample.Parse Sample.DecodeLastRune Store.opened "a.txt" Store.same_second
   = (Store.first_a, None)
   ↔ Versions Sample.Parse Sample.DecodeLastRune Store.opened "a.txt" 1
       Store.same_second = (mk_slice [Store.first_a], None))
  ∧ ∀ vs, Versions Sample.Parse Sample.DecodeLastRune Store.opened "a.txt" 2
            Store.same_second = (mk_slice vs, None) →
          (Z.of_nat (length vs) ≤ 2)%Z.
Proof.
  pose proof (history_newest_first Sample.Parse Sample.DecodeLastRune
                Store.opened Store.same_second "a.txt" 2%Z eq_refl
                ltac:(lia)) as [Hhistory Hlatest].
  split; [apply Hlatest|]. intros vs Hvs. by apply Hhistory.
Defined.

(** Equal timestamps are not ordered by identity: two versions
    recorded in the same second come back lower identity first, which
    is not a descending creation order, and [Get] answers the lower
    one. *)
Lemma history_ties_counterexample :
  Versions Sample.Parse Sample.DecodeLastRune Store.opened "a.txt" 2
    Store.same_second = (mk_slice [Store.first_a; Store.second_a], None)
  ∧ ¬ descending_creation [Store.first_a; Store.second_a]
  ∧ Get Sample.Parse Sample.DecodeLastRune Store.opened "a.txt"
      Store.same_second = (Store.first_a, None).
Proof.
  split; [vm_compute; reflexivity|]. split; [|vm_compute; reflexivity].
  intros Hsorted. apply Sorted_inv in Hsorted as [_ Hhd].
  apply HdRel_inv in Hhd. unfold created_after in Hhd. simpl in Hhd. lia.
Qed.

Lemma search_oldest_first_witness :
  ∃ rows,
    FuzzySearch Sample.Parse Sample.DecodeLastRune Sample.fts_match Store.opened
      "RPRT" 1 Store.reports
    = getVersions Sample.Parse Sample.DecodeLastRune Store.opened rows
    ∧ oldest_first rows ∧ (Z.of_nat (length rows) ≤ 1)%Z.
Proof.
  destruct (Sample.fts_match "RPRT") as [m|] eqn:Hm; [|discriminate].
  destruct (search_oldest_first Sample.Parse Sample.DecodeLastRune
              Sample.fts_match Store.opened Store.reports "RPRT" 1%Z m true
              eq_refl Hm) as (rows & Hresult & _ & Hsorted & Hlength & _).
  exists rows. split; [exact Hresult|]. split; [exact Hsorted|].
  apply Hlength. lia.
Defined.

(** The full-text search does not answer newest first: the two
    reports come back older first. *)
Lemma search_order_counterexample :
  Search Sample.Parse Sample.DecodeLastRune Sample.fts_match Store.opened
    "report" 10 Store.reports
  = (mk_slice [Store.quarterly; Store.yearly], None)
  ∧ ¬ descending_time [Store.quarterly; Store.yearly].
Proof.
  split; [vm_compute; reflexivity|].
  intros Hsorted. apply Sorted_inv in Hsorted as [_ Hhd].
  apply HdRel_inv in Hhd. simpl in Hhd. lia.
Qed.

Lemma failed_copy_leaves_catalog_witness :
  ∃ msg w',
    Add Sample.Sum512 Sample.encode Sample.decode Sample.Encode Sample.Fields
      Sample.Dir Sample.DecodeLastRune Store.opened Store.bad_day "a.txt"
      "greeting" "1.0" Store.fresh
    = (Some (Errorf msg (PathError "write" "store/68656c6c6f/a.txt" EIO)), w')
    ∧ files w' !! "store/68656c6c6f/a.txt" = None
    ∧ sqlite w' = empty_catalog.
Proof.
  edestruct (failed_copy_leaves_catalog Sample.Sum512 Sample.encode
               Sample.decode Sample.Encode Sample.Fields Sample.Dir
               Sample.DecodeLastRune Store.opened Store.bad_day "a.txt"
               "greeting" "1.0" Store.fresh Store.hello_sum)
    as (msg & w' & Hadd & _ & Hgone & _ & _ & Hsql).
  - reflexivity.
  - reflexivity.
  - reflexivity.
  - reflexivity.
  - reflexivity.
  - exists msg, w'. split; [exact Hadd|]. split; [exact Hgone|exact Hsql].
Defined.


Lemma restore_misses_compressed_blob_witness :
  ∃ w1 v,
    Add Sample.Sum512 Sample.encode Sample.decode Sample.Encode Sample.Fields
      Sample.Dir Sample.DecodeLastRune Store.compressing Store.monday "a.txt"
      "greeting" "1.0" Store.fresh = (None, w1)
    ∧ Get Sample.Parse Sample.DecodeLastRune Store.compressing "a.txt" w1
      = (v, None)
    ∧ files w1 !! "store/68656c6c6f/a.txt.snappy"
      = Some (Sample.encode Store.hello)
    ∧ Restore Sample.encode Sample.decode Sample.DecodeLastRune
        Store.compressing copy_completes v "out" w1
      = (Some (PathError "open" "store/68656c6c6f/a.txt" ENOENT), w1).
Proof.
  eexists _, _. split; [reflexivity|]. split; [reflexivity|].
  split; [reflexivity|].
  eapply (restore_misses_compressed_blob Sample.Sum512 Sample.encode
            Sample.decode Sample.Parse Sample.Encode Sample.Fields
            Sample.Dir Sample.DecodeLastRune Store.compressing
            Store.monday copy_completes "a.txt" "greeting" "1.0" Store.fresh _
            Store.hello_sum).
  - reflexivity.
  - reflexivity.
  - apply not_elem_of_nil.
  - reflexivity.
  - reflexivity.
  - reflexivity.
  - discriminate.
  - reflexivity.
  - reflexivity.
Defined.

(** The same failure without compression, after deduplication: the
    blob of the shared digest lies under the base name of the file
    added first, and [Restore] of the version of the second file, of
    another base name, finds no blob. *)
Lemma restore_misses_deduplicated_blob :
  ∃ w1 w2 v,
    Add Sample.Sum512 Sample.encode Sample.decode Sample.Encode Sample.Fields
      Sample.Dir Sample.DecodeLastRune Store.opened Store.monday "a.txt"
      "greeting" "1.0" Store.fresh = (None, w1)
    ∧ Add Sample.Sum512 Sample.encode Sample.decode Sample.Encode Sample.Fields
        Sample.Dir Sample.DecodeLastRune Store.opened Store.tuesday "docs/b.txt"
        "greeting again" "1.0" w1 = (None, w2)
    ∧ Get Sample.Parse Sample.DecodeLastRune Store.opened "docs/b.txt" w2
      = (v, None)
    ∧ Restore Sample.encode Sample.decode Sample.DecodeLastRune Store.opened
        copy_completes v "out" w2
      = (Some (PathError "open" "store/68656c6c6f/b.txt" ENOENT), w2).
Proof. eexists _, _, _. repeat split; vm_compute; reflexivity. Qed.



(** ** The further properties on the sample stores *)

Lemma Add_records_version_witness :
  ∃ w' check f,
    Add Sample.Sum512 Sample.encode Sample.decode Sample.Encode Sample.Fields
      Sample.Dir Sample.DecodeLastRune Store.opened Store.monday "a.txt"
      "greeting" "1.0" Store.fresh = (None, w')
    ∧ Checksum Sample.Sum512 Store.opened "a.txt" Store.fresh = (check, None)
    ∧ checksum f = check
    ∧ tbl_Versions (sqlite w') =
      [mkVersionsRow 1%Z "a.txt" "greeting" "greeting" "1.0"
         "2021-08-16 09:00:00" (file_id f)].
Proof.
  eexists.
  edestruct (Add_records_version Sample.Sum512 Sample.encode Sample.decode
               Sample.Encode Sample.Fields Sample.Dir Sample.DecodeLastRune
               Store.opened Store.monday "a.txt" "greeting" "1.0" Store.fresh)
    as (check & f & Hsum & Hck & _ & _ & HV & _).
  - reflexivity.
  - exists check, f. split; [reflexivity|]. split; [exact Hsum|].
    split; [exact Hck|exact HV].
Defined.

Lemma Has_after_Add_witness :
  Has Store.opened "a.txt"
    (snd (Add Sample.Sum512 Sample.encode Sample.decode Sample.Encode
            Sample.Fields Sample.Dir Sample.DecodeLastRune Store.opened
            Store.monday "a.txt" "greeting" "1.0" Store.fresh)) = true.
Proof.
  apply (Has_after_Add Sample.Sum512 Sample.encode Sample.decode Sample.Encode
           Sample.Fields Sample.Dir Sample.DecodeLastRune Store.opened
           Store.monday "a.txt" "greeting" "1.0" Store.fresh).
  reflexivity.
Defined.

Lemma references_stay_resolved_witness :
  references_resolve
    (sqlite
       (add_all Sample.Sum512 Sample.encode Sample.decode Sample.Encode
          Sample.Fields Sample.Dir Sample.DecodeLastRune Store.opened
          [ mkAddCall Store.monday "a.txt" "greeting" "1.0";
            mkAddCall Store.tuesday "docs/b.txt" "greeting again" "1.0" ]
          Store.fresh)).
Proof.
  apply (references_stay_resolved Sample.Sum512 Sample.encode Sample.decode
           Sample.Encode Sample.Fields Sample.Dir Sample.DecodeLastRune
           Store.opened
           [ mkAddCall Store.monday "a.txt" "greeting" "1.0";
             mkAddCall Store.tuesday "docs/b.txt" "greeting again" "1.0" ]
           Store.fresh).
  intros v Hv. by apply elem_of_nil in Hv.
Defined.

Lemma Add_changes_only_the_blob_witness :
  files (snd (Add Sample.Sum512 Sample.encode Sample.decode Sample.Encode
                Sample.Fields Sample.Dir Sample.DecodeLastRune Store.opened
                Store.monday "a.txt" "greeting" "1.0" Store.fresh))
    !! "a.txt" = Some Store.hello.
Proof.
  rewrite (Add_changes_only_the_blob Sample.Sum512 Sample.encode Sample.decode
             Sample.Encode Sample.Fields Sample.Dir Sample.DecodeLastRune
             Store.opened Store.monday "a.txt" "greeting" "1.0" Store.fresh
             "a.txt").
  - reflexivity.
  - discriminate.
Defined.

Lemma Add_of_missing_file_witness :
  ∃ cause,
    Add Sample.Sum512 Sample.encode Sample.decode Sample.Encode Sample.Fields
      Sample.Dir Sample.DecodeLastRune Store.opened Store.monday "c.txt"
      "greeting" "1.0" Store.fresh
    = (Some (Errorf "filestore checksum failed for c.txt" cause), Store.fresh)
    ∧ is_io_error cause = true.
Proof.
  apply (Add_of_missing_file Sample.Sum512 Sample.encode Sample.decode
           Sample.Encode Sample.Fields Sample.Dir Sample.DecodeLastRune
           Store.opened Store.monday "c.txt" "greeting" "1.0" Store.fresh).
  - reflexivity.
  - reflexivity.
Defined.

Lemma Add_blocked_by_file_witness :
  ∃ msg,
    Add Sample.Sum512 Sample.encode Sample.decode Sample.Encode Sample.Fields
      Sample.Dir Sample.DecodeLastRune Store.opened Store.monday "a.txt"
      "greeting" "1.0" Cases.blocked
    = (Some (Errorf msg ErrDirectoryIsFile), Cases.blocked).
Proof.
  apply (Add_blocked_by_file Sample.Sum512 Sample.encode Sample.decode
           Sample.Encode Sample.Fields Sample.Dir Sample.DecodeLastRune
           Store.opened Store.monday "a.txt" "greeting" "1.0" Cases.blocked
           Store.hello_sum []).
  - reflexivity.
  - reflexivity.
  - reflexivity.
  - reflexivity.
Defined.

Lemma Get_returns_a_latest_version_witness :
  ∃ row,
    row ∈ inner_join (tbl_Versions (sqlite Store.one_version))
            (tbl_Files (sqlite Store.one_version))
    ∧ FileVersion.ID Store.a_txt = version_id (j_version row)
    ∧ FileVersion.Checksum Store.a_txt = j_checksum row.
Proof.
  destruct (Get_returns_a_latest_version Sample.Parse Sample.DecodeLastRune
              Store.opened "a.txt" Store.one_version Store.a_txt eq_refl
              eq_refl) as (row & Hrow & _ & Hv & _).
  exists row. split; [exact Hrow|].
  split; [exact (f_equal FileVersion.ID Hv)|exact (f_equal FileVersion.Checksum Hv)].
Defined.

Lemma Get_after_Add_witness :
  ∃ w',
    Add Sample.Sum512 Sample.encode Sample.decode Sample.Encode Sample.Fields
      Sample.Dir Sample.DecodeLastRune Store.opened Cases.saturday "a.txt"
      "greeting again" "1.1" Store.one_version = (None, w')
    ∧ Get Sample.Parse Sample.DecodeLastRune Store.opened "a.txt" w'
      = (FileVersion.mk 2%Z "a.txt" "a.txt" "store/68656c6c6f/a.txt"
           "greeting again" "greeting again" "1.1" 1629541805%Z
           Store.hello_sum,
         None).
Proof.
  eexists.
  edestruct (Get_after_Add Sample.Sum512 Sample.encode Sample.decode Sample.Parse
               Sample.Encode Sample.Fields Sample.Dir Sample.DecodeLastRune
               Store.opened Cases.saturday "a.txt" "greeting again" "1.1"
               Store.one_version)
    as (check & Hsum & HGet).
  - reflexivity.
  - split; apply NoDup_singleton.
  - reflexivity.
  - reflexivity.
  - intros v Hv%list_elem_of_singleton _. subst v. reflexivity.
  - split; [reflexivity|]. injection Hsum as <-. exact HGet.
Defined.

Lemma Has_agrees_with_Get_witness :
  Has Store.opened "b.txt" Store.one_version = false ↔
  Get Sample.Parse Sample.DecodeLastRune Store.opened "b.txt" Store.one_version
  = (FileVersion.zero, Some (dbError sql_ErrNoRows)).
Proof.
  apply (Has_agrees_with_Get Sample.Parse Sample.DecodeLastRune Store.opened
           "b.txt" Store.one_version).
  - reflexivity.
  - intros v Hv%list_elem_of_singleton. subst v.
    exists (mkFilesRow 1%Z Store.hello_sum). split; [apply list_elem_of_here|].
    reflexivity.
Defined.

Lemma limit_takes_a_prefix_witness :
  Versions Sample.Parse Sample.DecodeLastRune Store.opened "a.txt" 1
    Store.same_second = (mk_slice [Store.first_a], None)
  ∧ VersionsAfter Sample.Parse Sample.Format Sample.DecodeLastRune Store.opened
      "a.txt" 0%Z (-7) Store.same_second
    = (mk_slice [Store.first_a; Store.second_a], None).
Proof.
  split.
  - apply (limit_takes_a_prefix Sample.Parse Sample.Format Sample.DecodeLastRune
             Store.opened "a.txt" 0%Z Store.same_second
             [Store.first_a; Store.second_a] (-1)%Z 1%Z eq_refl eq_refl).
    reflexivity.
  - apply (limit_takes_a_prefix Sample.Parse Sample.Format Sample.DecodeLastRune
             Store.opened "a.txt" 0%Z Store.same_second
             [Store.first_a; Store.second_a] (-1)%Z (-7)%Z eq_refl eq_refl).
    reflexivity.
Defined.

Lemma VersionsAfter_strictly_later_witness :
  ∃ rows,
    versions_of Sample.Parse Sample.DecodeLastRune Store.opened rows
      [Store.first_a; Store.second_a]
    ∧ newest_first rows
    ∧ ∀ r, r ∈ rows →
        String.ltb (ToDBDate Sample.Format 1629400000%Z) (j_date r) = true.
Proof.
  destruct (VersionsAfter_strictly_later Sample.Parse Sample.Format
              Sample.DecodeLastRune Store.opened "a.txt" 1629400000%Z 5%Z
              Store.same_second [Store.first_a; Store.second_a] eq_refl
              eq_refl) as (rows & Hrows & Hsorted & _ & Hlater & _).
  exists rows. split; [exact Hrows|]. split; [exact Hsorted|].
  intros r Hr. apply (Hlater r Hr).
Defined.

Lemma copyFile_round_trip_witness :
  ∃ w1 w2,
    copyFile Sample.encode Sample.decode copy_completes "a.txt" "a.txt.snappy"
      true false Store.fresh = (None, w1)
    ∧ copyFile Sample.encode Sample.decode copy_completes "a.txt.snappy"
        "out/a.txt" true true w1 = (None, w2)
    ∧ files w1 !! "a.txt.snappy" = Some (Sample.encode Store.hello)
    ∧ files w2 !! "out/a.txt" = Some Store.hello.
Proof.
  destruct (copyFile_round_trip Sample.encode Sample.decode true "a.txt"
              "a.txt.snappy" "out/a.txt" Store.fresh Store.hello)
    as (w1 & w2 & Hpack & Hunpack & Hout & _).
  - intros _ b. reflexivity.
  - reflexivity.
  - discriminate.
  - discriminate.
  - exists w1, w2. split; [exact Hpack|]. split; [exact Hunpack|].
    split; [|exact Hout].
    injection Hpack as <-. reflexivity.
Defined.

Lemma copyFile_onto_itself_witness :
  ∃ w1,
    copyFile Sample.encode Sample.decode copy_completes "a.txt" "a.txt" false
      false Store.fresh = (None, w1)
    ∧ files Store.fresh !! "a.txt" = Some Store.hello
    ∧ files w1 !! "a.txt" = Some [].
Proof.
  destruct (copyFile_onto_itself Sample.encode Sample.decode false "a.txt"
              Store.fresh Store.hello eq_refl) as (w1 & Hcopy & Hlost).
  exists w1. split; [exact Hcopy|]. split; [reflexivity|exact Hlost].
Defined.

Lemma copyFile_without_source_witness :
  copyFile Sample.encode Sample.decode copy_completes "c.txt" "a.txt" false
    false Store.fresh
  = (Some (PathError "open" "c.txt" ENOENT), Store.fresh).
Proof.
  apply (copyFile_without_source Sample.encode Sample.decode copy_completes
           "c.txt" "a.txt" false false Store.fresh).
  - reflexivity.
  - vm_compute. discriminate.
Defined.

Lemma RestoreAtSource_target_witness :
  RestoreAtSource Sample.encode Sample.decode Sample.DecodeLastRune Store.opened
    copy_completes Store.a_txt Store.one_version
  = copyFile Sample.encode Sample.decode copy_completes
      "store/68656c6c6f/a.txt" "a.txt/a.txt" false true Store.one_version
  ∧ files (snd (RestoreAtSource Sample.encode Sample.decode
                  Sample.DecodeLastRune Store.opened copy_completes Store.a_txt
                  Store.one_version)) !! "a.txt" = Some Store.hello.
Proof.
  destruct (RestoreAtSource_target Sample.encode Sample.decode
              Sample.DecodeLastRune Store.opened copy_completes Store.a_txt
              Store.one_version) as (target & _ & _ & _ & Hkept).
  - discriminate.
  - split; [reflexivity|].
    transitivity (files Store.one_version !! "a.txt"); [exact Hkept|reflexivity].
Defined.

Lemma operations_after_Close_witness :
  fst (Close Store.opened) = None
  ∧ Get Sample.Parse Sample.DecodeLastRune (snd (Close Store.opened)) "a.txt"
      Store.one_version
    = (FileVersion.zero, Some (dbError sql_ErrClosed))
  ∧ Has (snd (Close Store.opened)) "a.txt" Store.one_version = false
  ∧ Add Sample.Sum512 Sample.encode Sample.decode Sample.Encode Sample.Fields
      Sample.Dir Sample.DecodeLastRune (snd (Close Store.opened)) Cases.saturday
      "a.txt" "greeting again" "1.1" Store.one_version
    = (Some (dbError sql_ErrClosed), Store.one_version).
Proof.
  pose proof (operations_after_Close Sample.Sum512 Sample.encode Sample.decode
                Sample.Parse Sample.Format Sample.Encode Sample.Fields
                Sample.Dir Sample.DecodeLastRune Sample.fts_match Store.opened
                Cases.saturday Store.one_version "a.txt" "greeting again" "1.1"
                0%Z 5%Z ["greeting"] "greeting" Store.hello eq_refl)
    as (HClose & _ & _ & HGet & _ & _ & _ & _ & _ & HHas & HAdd & _).
  split; [exact HClose|]. split; [exact HGet|]. split; [exact HHas|].
  apply HAdd. reflexivity.
Defined.

(** The stand-in of [utf8.DecodeLastRuneInString] decodes a last
    ASCII byte to itself, with width one. *)
Lemma DecodeLastRune_ascii s c :
  (nat_of_ascii c < 128)%nat →
  Sample.DecodeLastRune (s +:+ String c "") = (Z.of_nat (nat_of_ascii c), 1%Z).
Proof.
  intros Hc. unfold Sample.DecodeLastRune.
  rewrite chars_append. change (chars (String c "")) with [c].
  rewrite rev_app_distr. simpl.
  destruct (Nat.ltb_spec (nat_of_ascii c) 128) as [_|Hge]; [reflexivity|lia].
Qed.

Lemma asDirectoryPath_ends_in_separator_witness :
  asDirectoryPath Sample.DecodeLastRune "" = ""
  ∧ asDirectoryPath Sample.DecodeLastRune "out" = "out/"
  ∧ asDirectoryPath Sample.DecodeLastRune "out/" = "out/"
  ∧ ∃ p, Root Sample.DecodeLastRune Store.opened = p +:+ "/".
Proof.
  destruct (asDirectoryPath_ends_in_separator Sample.DecodeLastRune
              DecodeLastRune_ascii) as (Hempty & Hpath & HRoot).
  split; [exact Hempty|].
  split; [apply (Hpath "ou" "t"%char); vm_compute; lia|].
  split; [apply (Hpath "out" "/"%char); vm_compute; lia|].
  apply HRoot. right. exists "stor", "e"%char.
  split; [vm_compute; lia|reflexivity].
Defined.

Lemma Add_stores_the_content_witness :
  ∃ w',
    Add Sample.Sum512 Sample.encode Sample.decode Sample.Encode Sample.Fields
      Sample.Dir Sample.DecodeLastRune Store.compressing Store.monday "a.txt"
      "greeting" "1.0" Store.fresh = (None, w')
    ∧ files w' !! "store/68656c6c6f/a.txt.snappy"
      = Some (Sample.encode Store.hello)
    ∧ files w' !! "a.txt" = Some Store.hello.
Proof.
  eexists. split; [reflexivity|].
  eapply (Add_stores_the_content Sample.Sum512 Sample.encode Sample.decode
            Sample.Encode Sample.Fields Sample.Dir Sample.DecodeLastRune
            Store.compressing Store.monday "a.txt" "greeting" "1.0" Store.fresh
            _ Store.hello Store.hello_sum).
  - reflexivity.
  - reflexivity.
  - reflexivity.
  - apply not_elem_of_nil.
  - discriminate.
  - reflexivity.
Defined.

Lemma Add_Get_Restore_round_trip_witness :
  ∃ w1 v w2,
    Add Sample.Sum512 Sample.encode Sample.decode Sample.Encode Sample.Fields
      Sample.Dir Sample.DecodeLastRune Store.opened Store.monday "a.txt"
      "greeting" "1.0" Store.fresh = (None, w1)
    ∧ Get Sample.Parse Sample.DecodeLastRune Store.opened "a.txt" w1 = (v, None)
    ∧ Restore Sample.encode Sample.decode Sample.DecodeLastRune Store.opened
        copy_completes v "out" w1 = (None, w2)
    ∧ files w2 !! "out/a.txt" = Some Store.hello.
Proof.
  eexists.
  edestruct (Add_Get_Restore_round_trip Sample.Sum512 Sample.encode
               Sample.decode Sample.Parse Sample.Encode Sample.Fields Sample.Dir
               Sample.DecodeLastRune Store.opened Store.monday "a.txt"
               "greeting" "1.0" Store.fresh)
    with (data := Store.hello) (check := Store.hello_sum) (dst := "out")
    as (v & w2 & HGet & HRestore & Hout).
  - reflexivity.
  - reflexivity.
  - split; apply NoDup_nil_2.
  - apply not_elem_of_nil.
  - reflexivity.
  - reflexivity.
  - reflexivity.
  - reflexivity.
  - intros v Hv. by apply elem_of_nil in Hv.
  - discriminate.
  - discriminate.
  - exists v, w2. split; [reflexivity|]. split; [exact HGet|].
    split; [exact HRestore|exact Hout].
Defined.
